(** * SoftSpi: a bit-banged SPI master (src/softspi.cpp)

    Shallow embedding of the protocol engine of [SoftSpi]: the setters
    [setFrequency] and [setMode], the bit, byte and buffer exchange functions
    [writeBit], [writeByte] and [write], and the busy-wait primitive
    [usleepByCounting].

    The C++ methods mutate the fields of the object and talk to three GPIO
    lines through the mraa library.  Both are made explicit here: a method is
    a function from a [State] (the object's fields and the outside [World]) to
    an optional result and a new [State]; [None] stands for a C++ execution
    with undefined behaviour (a read past the end of the buffer, a
    double-to-integer conversion out of range).  Every GPIO access, busy-wait
    and diagnostic is appended to the world's event log, in program order. *)

From Stdlib Require Import ZArith List Bool Lia SpecFloat.
From stdpp Require Import base list.
Import ListNotations.

Local Open Scope Z_scope.

(** ** Machine integers *)

(** Conversion to [uint8_t]: reduction modulo 2^8. *)
Definition to_uint8 (x : Z) : Z := x mod 256.

(** ** The outside world: three GPIO lines and a log *)

(** The three [mraa_gpio_context] handles owned by the object:
    [m_sck], [m_mosi], [m_miso]. *)
Inductive Pin := SCK | MOSI | MISO.

Inductive Event :=
| GpioWrite (p : Pin) (level : Z)   (* mraa_gpio_write(p, level) *)
| GpioRead (p : Pin) (value : Z)    (* mraa_gpio_read(p) returned value *)
| Usleep (sleepCount : Z)           (* usleepByCounting(sleepCount) *)
| Printf (mode : Z).                (* printf("unhandled spi mode %d\n", mode) *)

Record World := {
  sck_level : Z;            (* level last driven on the clock line *)
  mosi_level : Z;           (* level last driven on the data-out line *)
  events : list Event       (* everything done so far, oldest first *)
}.

(** ** The object *)

Record SoftSpi := {
  m_mode : Z;
  m_cpol : Z;
  m_frequency : Z;
  m_clockSleepCount : Z;
  m_betweenByteSleepCount : Z
}.

Record State := { self : SoftSpi; world : World }.

(** ** A state monad with undefined behaviour *)

Definition M (A : Type) : Type := State -> option (A * State).

Definition ret {A} (a : A) : M A := fun s => Some (a, s).

Definition bind {A B} (c : M A) (k : A -> M B) : M B :=
  fun s => match c s with
           | Some (a, s') => k a s'
           | None => None
           end.

Definition undefined {A} : M A := fun _ => None.

Notation "'let*' x ':=' c 'in' k" := (bind c (fun x => k))
  (at level 10, x pattern, c at level 100, k at level 200).
Notation "c ';;' k" := (bind c (fun _ => k))
  (at level 100, k at level 200, right associativity).

Definition get_self : M SoftSpi := fun s => Some (self s, s).

Definition log (e : Event) (w : World) : World :=
  {| sck_level := sck_level w; mosi_level := mosi_level w;
     events := events w ++ [e] |}.

Definition drive (p : Pin) (v : Z) (w : World) : World :=
  match p with
  | SCK => {| sck_level := v; mosi_level := mosi_level w; events := events w |}
  | MOSI => {| sck_level := sck_level w; mosi_level := v; events := events w |}
  | MISO => w
  end.

(** Field setters of the object, one per assignment in the source. *)
Definition set_m_mode (v : Z) (o : SoftSpi) : SoftSpi :=
  {| m_mode := v; m_cpol := m_cpol o; m_frequency := m_frequency o;
     m_clockSleepCount := m_clockSleepCount o;
     m_betweenByteSleepCount := m_betweenByteSleepCount o |}.

Definition set_m_cpol (v : Z) (o : SoftSpi) : SoftSpi :=
  {| m_mode := m_mode o; m_cpol := v; m_frequency := m_frequency o;
     m_clockSleepCount := m_clockSleepCount o;
     m_betweenByteSleepCount := m_betweenByteSleepCount o |}.

Definition set_m_frequency (v : Z) (o : SoftSpi) : SoftSpi :=
  {| m_mode := m_mode o; m_cpol := m_cpol o; m_frequency := v;
     m_clockSleepCount := m_clockSleepCount o;
     m_betweenByteSleepCount := m_betweenByteSleepCount o |}.

Definition set_m_clockSleepCount (v : Z) (o : SoftSpi) : SoftSpi :=
  {| m_mode := m_mode o; m_cpol := m_cpol o; m_frequency := m_frequency o;
     m_clockSleepCount := v;
     m_betweenByteSleepCount := m_betweenByteSleepCount o |}.

Definition modify_self (f : SoftSpi -> SoftSpi) : M unit :=
  fun s => Some (tt, {| self := f (self s); world := world s |}).

(** [mraa_gpio_write(p, v)]: the line takes the level, the call is logged. *)
Definition mraa_gpio_write (p : Pin) (v : Z) : M unit :=
  fun s => Some (tt, {| self := self s;
                        world := log (GpioWrite p v) (drive p v (world s)) |}).

(** [usleepByCounting(sleepCount)]: [for(i = 1; i < sleepCount; i++);] on a
    volatile counter.  It changes nothing but the time; the call is logged
    with its argument. *)
Definition usleepByCounting (sleepCount : Z) : M unit :=
  fun s => Some (tt, {| self := self s;
                        world := log (Usleep sleepCount) (world s) |}).

(** Number of times the body of the counting loop runs. *)
Definition usleepByCounting_iterations (sleepCount : Z) : Z :=
  Z.max 0 (sleepCount - 1).

Definition printf_unhandled (mode : Z) : M unit :=
  fun s => Some (tt, {| self := self s;
                        world := log (Printf mode) (world s) |}).

(** ** Double precision

    [double] is IEEE 754 binary64, computed with the operations of the
    standard library's [SpecFloat] (round to nearest, ties to even). *)

Definition prec : Z := 53.
Definition emax : Z := 1024.

Definition double : Type := spec_float.

(** [(double)z] for an integer [z]. *)
Definition double_of_Z (z : Z) : double := binary_normalize prec emax z 0 false.

Definition ddiv : double -> double -> double := SFdiv prec emax.
Definition dmul : double -> double -> double := SFmul prec emax.

(** The integer part of a finite double, rounding toward zero. *)
Definition trunc_double (x : double) : option Z :=
  match x with
  | S754_zero _ => Some 0
  | S754_finite s m e =>
    Some (cond_Zopp s (if 0 <=? e then Zpos m * 2 ^ e else Zpos m / 2 ^ (- e)))
  | S754_infinity _ | S754_nan => None
  end.

(** Conversion of a double to [int32_t]: the fraction is discarded; the
    behaviour is undefined when the integer part does not fit, and for
    infinities and NaN. *)
Definition double_to_int32 (x : double) : option Z :=
  match trunc_double x with
  | Some z => if (- 2 ^ 31 <=? z) && (z <? 2 ^ 31) then Some z else None
  | None => None
  end.

Section Clock.

(** The calibration constant of the header, which is not part of the
    sources at hand: the number of iterations of the counting loop per
    second, an integer. *)
Variable LOOPS_PER_SECOND : Z.

(** The value of
    [(1.0 / (double)frequency) * ((double)LOOPS_PER_SECOND) / 2.0]. *)
Definition half_period (frequency : Z) : double :=
  ddiv (dmul (ddiv (double_of_Z 1) (double_of_Z frequency))
             (double_of_Z LOOPS_PER_SECOND))
       (double_of_Z 2).

(** [void SoftSpi::setFrequency(uint32_t frequency)] *)
Definition setFrequency (frequency : Z) : M unit :=
  modify_self (set_m_frequency frequency) ;;
  match double_to_int32 (half_period frequency) with
  | None => undefined
  | Some c =>
    let c := if c <? 0 then 1 else c in
    modify_self (set_m_clockSleepCount c)
  end.

End Clock.

Section Engine.

(** What the slave shows on the data-in line, as a function of everything the
    master has done so far.  [mraa_gpio_read] returns an [int]. *)
Variable miso_line : World -> Z.

(** [mraa_gpio_read(m_miso)]. *)
Definition mraa_gpio_read (p : Pin) : M Z :=
  fun s => let v := miso_line (world s) in
           Some (v, {| self := self s; world := log (GpioRead p v) (world s) |}).

(** [void SoftSpi::setMode(SpiMode mode)] *)
Definition setMode (mode : Z) : M unit :=
  modify_self (set_m_mode mode) ;;
  let* o := get_self in
  if (m_mode o =? 2) || (m_mode o =? 3) then
    mraa_gpio_write SCK 1 ;;
    modify_self (set_m_cpol 1)
  else
    mraa_gpio_write SCK 0 ;;
    modify_self (set_m_cpol 0).

(** [uint8_t SoftSpi::writeBit(uint8_t bit)] *)
Definition writeBit (bit : Z) : M Z :=
  let* o := get_self in
  if (m_mode o =? 0) || (m_mode o =? 2) then
    mraa_gpio_write MOSI (if bit =? 0 then 0 else 1) ;;
    usleepByCounting (m_clockSleepCount o) ;;
    let* v := mraa_gpio_read MISO in
    let r := to_uint8 v in
    mraa_gpio_write SCK (if m_cpol o =? 0 then 1 else 0) ;;
    usleepByCounting (m_clockSleepCount o) ;;
    mraa_gpio_write SCK (if m_cpol o =? 0 then 0 else 1) ;;
    ret r
  else if (m_mode o =? 1) || (m_mode o =? 3) then
    mraa_gpio_write SCK (if m_cpol o =? 0 then 1 else 0) ;;
    mraa_gpio_write MOSI (if bit =? 0 then 0 else 1) ;;
    usleepByCounting (m_clockSleepCount o) ;;
    mraa_gpio_write SCK (if m_cpol o =? 0 then 0 else 1) ;;
    let* v := mraa_gpio_read MISO in
    let r := to_uint8 v in
    usleepByCounting (m_clockSleepCount o) ;;
    ret r
  else
    printf_unhandled (m_mode o) ;;
    ret (to_uint8 (-1)).

(** The body of the [for] loop of [writeByte], run [n] more times on the
    loop variables [byte] and [result]. *)
Fixpoint writeByte_loop (n : nat) (byte result : Z) : M Z :=
  match n with
  | O => ret result
  | S n' =>
    let bit := Z.land byte 0x80 in
    let result := to_uint8 (Z.shiftl result 1) in
    let* r := writeBit (to_uint8 bit) in
    let result := to_uint8 (Z.lor result (if r =? 0 then 0 else 1)) in
    let byte := to_uint8 (Z.shiftl byte 1) in
    writeByte_loop n' byte result
  end.

(** [uint8_t SoftSpi::writeByte(uint8_t byte)] *)
Definition writeByte (byte : Z) : M Z := writeByte_loop 8 byte 0.

(** The [for] loop of [write]: [n] iterations are left, [i] is the index.
    Reading [buffer[i]] past the end of the buffer is undefined. *)
Fixpoint write_loop (n : nat) (i : nat) (buffer : list Z) : M (list Z) :=
  match n with
  | O => ret buffer
  | S n' =>
    match buffer !! i with
    | None => undefined
    | Some b =>
      let* r := writeByte b in
      let buffer := <[i := r]> buffer in
      let* o := get_self in
      usleepByCounting (m_betweenByteSleepCount o) ;;
      write_loop n' (S i) buffer
    end
  end.

(** [void SoftSpi::write(uint8_t* buffer, uint32_t bufferLength)]; the
    buffer is passed in and handed back, as it is updated in place. *)
Definition write (buffer : list Z) (bufferLength : nat) : M (list Z) :=
  write_loop bufferLength 0%nat buffer.

(** [NAN_METHOD(SoftSpi::write)]: the length is that of the buffer. *)
Definition write_method (buffer : list Z) : M (list Z) :=
  write buffer (length buffer).

End Engine.

(** * Vocabulary of the specification and of the properties *)

(** A valid SPI mode is one of 0, 1, 2, 3. *)
Definition valid_mode (m : Z) : Prop := m = 0 \/ m = 1 \/ m = 2 \/ m = 3.

(** The table of the data model: CPOL = 1 for modes 2 and 3, 0 for modes 0
    and 1 (no entry for other values, read as 0 here). *)
Definition derivedCPOL (m : Z) : Z :=
  match m with
  | 2 | 3 => 1
  | _ => 0
  end.

(** A state as [setMode] leaves it for a valid mode: the stored polarity is
    the one of the stored mode. *)
Definition configured (s : State) : Prop :=
  valid_mode (m_mode (self s)) /\
  m_cpol (self s) = derivedCPOL (m_mode (self s)).

(** Events appended between two states. *)
Definition appended (s s' : State) (evs : list Event) : Prop :=
  events (world s') = events (world s) ++ evs.

(** A device in mode 3 with the clock idling high, before an invalid
    reconfiguration. *)
Definition mode3_state : State :=
  {| self := {| m_mode := 3; m_cpol := 1; m_frequency := 1000;
                m_clockSleepCount := 50; m_betweenByteSleepCount := 10 |};
     world := {| sck_level := 1; mosi_level := 0; events := [] |} |}.

(** The effect of a list of events on the lines and the log. *)
Definition apply_event (w : World) (e : Event) : World :=
  match e with
  | GpioWrite p v => log e (drive p v w)
  | _ => log e w
  end.

Definition replay (evs : list Event) (w : World) : World :=
  fold_left apply_event evs w.

(** The level opposite a polarity. *)
Definition opposite (cpol : Z) : Z := 1 - cpol.

(** The level a bit argument puts on the data-out line. *)
Definition level_of (bit : Z) : Z := if bit =? 0 then 0 else 1.

(** Modes 0 and 2, up to the sample: data out, half period. *)
Definition cpha0_before_sample (c outLevel : Z) : list Event :=
  [GpioWrite MOSI outLevel; Usleep c].

(** Modes 0 and 2, from the sample on: sample, clock active, half period,
    clock idle. *)
Definition cpha0_from_sample (cpol c inBit : Z) : list Event :=
  [GpioRead MISO inBit; GpioWrite SCK (opposite cpol); Usleep c;
   GpioWrite SCK cpol].

(** Modes 1 and 3, up to the sample: clock active, data out, half period,
    clock idle. *)
Definition cpha1_before_sample (cpol c outLevel : Z) : list Event :=
  [GpioWrite SCK (opposite cpol); GpioWrite MOSI outLevel; Usleep c;
   GpioWrite SCK cpol].

(** Modes 1 and 3, from the sample on: sample, half period. *)
Definition cpha1_from_sample (c inBit : Z) : list Event :=
  [GpioRead MISO inBit; Usleep c].

(** Number of busy-waits in a list of events. *)
Fixpoint count_usleep (evs : list Event) : nat :=
  match evs with
  | [] => 0%nat
  | Usleep _ :: evs' => S (count_usleep evs')
  | _ :: evs' => count_usleep evs'
  end.

Definition valid_modeb (m : Z) : bool :=
  (m =? 0) || (m =? 1) || (m =? 2) || (m =? 3).

(** Half periods waited per bit: two in a valid mode, none otherwise. *)
Definition sleeps_per_bit (m : Z) : nat := if valid_modeb m then 2%nat else 0%nat.

(** The byte exchange in the words of the specification: eight iterations,
    each extracting the top bit of the outgoing byte with mask 0x80,
    shifting the outgoing byte left by one, exchanging the extracted bit and
    accumulating the returned bit by a left shift and an OR with 0 or 1. *)
Fixpoint exchangeByte_iter (exchangeBit : Z -> M Z) (n : nat)
    (outByte inByte : Z) : M Z :=
  match n with
  | O => ret inByte
  | S n' =>
    let top := Z.land outByte 0x80 in
    let outByte := to_uint8 (Z.shiftl outByte 1) in
    let* r := exchangeBit top in
    let inByte := Z.lor (to_uint8 (Z.shiftl inByte 1)) (if r =? 0 then 0 else 1) in
    exchangeByte_iter exchangeBit n' outByte inByte
  end.

Definition exchangeByte_spec (exchangeBit : Z -> M Z) (outByte : Z) : M Z :=
  exchangeByte_iter exchangeBit 8 outByte 0.

(** Exchange of a list of bits, first to last, the received bits entering an
    accumulator from the right. *)
Fixpoint exchange_bits (exchangeBit : Z -> M Z) (outs : list bool) (acc : Z)
    : M Z :=
  match outs with
  | [] => ret acc
  | o :: outs' =>
    let* r := exchangeBit (if o then 0x80 else 0) in
    exchange_bits exchangeBit outs' (2 * acc + (if r =? 0 then 0 else 1))
  end.

(** The [n] top bits of a byte, most significant first. *)
Definition top_bits (n : nat) (b : Z) : list bool :=
  map (fun i => Z.testbit b (7 - Z.of_nat i)) (seq 0 n).

(** The value of a list of bits read most significant first, on top of an
    accumulator. *)
Definition bits_value (outs : list bool) (acc : Z) : Z :=
  fold_left (fun a (o : bool) => 2 * a + (if o then 1 else 0)) outs acc.

(** The accumulator of an unhandled mode: a one enters at every step. *)
Fixpoint all_ones (n : nat) (result : Z) : Z :=
  match n with
  | O => result
  | S n' => all_ones n' (to_uint8 (Z.lor (to_uint8 (Z.shiftl result 1)) 1))
  end.

(** A state whose mode is none of 0..3. *)
Definition mode4_state : State :=
  {| self := {| m_mode := 4; m_cpol := 0; m_frequency := 1000;
                m_clockSleepCount := 50; m_betweenByteSleepCount := 10 |};
     world := {| sck_level := 0; mosi_level := 0; events := [] |} |}.

(** A device in mode 0, clock idling low. *)
Definition mode0_state : State :=
  {| self := {| m_mode := 0; m_cpol := 0; m_frequency := 1000;
                m_clockSleepCount := 50; m_betweenByteSleepCount := 10 |};
     world := {| sck_level := 0; mosi_level := 0; events := [] |} |}.

(** The transfer in the words of the specification: for each byte of the
    buffer, in order, exchange it, put the returned byte in its place, then
    wait for the inter-byte delay. *)
Fixpoint transfer_spec (exchangeByte : Z -> M Z) (buffer : list Z)
    : M (list Z) :=
  match buffer with
  | [] => ret []
  | b :: rest =>
    let* r := exchangeByte b in
    let* o := get_self in
    usleepByCounting (m_betweenByteSleepCount o) ;;
    let* rs := transfer_spec exchangeByte rest in
    ret (r :: rs)
  end.

(** ** Binary64 rounding, for the analysis of [half_period] *)

(** Round to nearest, ties to even, of the quotient N / D. *)
Definition rne_div (N D : Z) : Z :=
  let q := N / D in
  let r := N mod D in
  match 2 * r ?= D with
  | Lt => q
  | Eq => if Z.even q then q else q + 1
  | Gt => q + 1
  end.

(** The exponent of the subnormal doubles. *)
Definition emin : Z := -1074.

(** The finite double of a rounded mantissa: a mantissa that reached 2^53
    moves to the next binade. *)
Definition finite_of (s : bool) (q e : Z) : spec_float :=
  if q =? 2 ^ 53 then S754_finite s (Z.to_pos (2 ^ 52)) (e + 1)
  else S754_finite s (Z.to_pos q) e.

(** Mantissa and exponent of the double of a positive integer below 2^53. *)
Definition mant (z : Z) : Z := z * 2 ^ (53 - Zdigits2 z).
Definition expo (z : Z) : Z := Zdigits2 z - 53.

(** The value of a finite double in units of 2^-1074, the smallest positive
    double; zero for the others. *)
Definition scaled (x : spec_float) : Z :=
  match x with
  | S754_finite s m e => cond_Zopp s (Z.pos m * 2 ^ (e + 1074))
  | _ => 0
  end.

(** A positive normal double whose exponent lies between [lo] and [hi]. *)
Definition pos_normal (lo hi : Z) (x : spec_float) : Prop :=
  exists m e, x = S754_finite false m e /\
              2 ^ 52 <= Z.pos m < 2 ^ 53 /\ lo <= e <= hi.

(** ** setFrequency *)

(** The calibration used in the examples: 10^8 iterations per second. *)
Definition example_loops_per_second : Z := 100000000.

(** The half-period count as the specification words it: the quotient
    L / (2 hz) rounded to the nearest integer (halves upward), and at least
    1. *)
Definition rounded_half_period (L hz : Z) : Z :=
  Z.max 1 ((L + hz) / (2 * hz)).

(** ** Reading the event log *)

Definition Pin_eqb (p q : Pin) : bool :=
  match p, q with
  | SCK, SCK | MOSI, MOSI | MISO, MISO => true
  | _, _ => false
  end.

(** The levels written to a line, in order. *)
Fixpoint writes_to (p : Pin) (evs : list Event) : list Z :=
  match evs with
  | [] => []
  | GpioWrite q v :: evs' =>
    if Pin_eqb q p then v :: writes_to p evs' else writes_to p evs'
  | _ :: evs' => writes_to p evs'
  end.

(** The values read from the data-in line, in order. *)
Fixpoint reads (evs : list Event) : list Z :=
  match evs with
  | [] => []
  | GpioRead _ v :: evs' => v :: reads evs'
  | _ :: evs' => reads evs'
  end.

(** The arguments of the busy-waits, in order. *)
Fixpoint waits (evs : list Event) : list Z :=
  match evs with
  | [] => []
  | Usleep n :: evs' => n :: waits evs'
  | _ :: evs' => waits evs'
  end.

(** The diagnostics printed, in order. *)
Fixpoint printed (evs : list Event) : list Z :=
  match evs with
  | [] => []
  | Printf m :: evs' => m :: printed evs'
  | _ :: evs' => printed evs'
  end.

(** Iterations of the counting loop spent in a list of events. *)
Definition busy_iterations (evs : list Event) : Z :=
  fold_right (fun n acc => usleepByCounting_iterations n + acc) 0 (waits evs).

(** The bit a sample contributes to the received byte: [writeBit] keeps the
    low eight bits of what was read, [writeByte] tests them against 0. *)
Definition sample_bit (v : Z) : bool := negb (to_uint8 v =? 0).

(** The level driven on data-out for a bit of the outgoing byte. *)
Definition bit_level (o : bool) : Z := if o then 1 else 0.

(** One clock pulse: away from the idle level and back. *)
Definition pulse (cpol : Z) : list Z := [opposite cpol; cpol].

(** The state in which transfers start and end: a valid mode, its polarity
    stored, and the clock line at that level. *)
Definition clock_idle (s : State) : Prop :=
  configured s /\ sck_level (world s) = m_cpol (self s).

(** The level a line is left at by a list of writes, starting from [level]. *)
Definition final_level (levels : list Z) (level : Z) : Z :=
  fold_left (fun _ v => v) levels level.

(** Conversion to [uint32_t]: reduction modulo 2^32. *)
Definition to_uint32 (x : Z) : Z := x mod 2 ^ 32.

(** The counting loop of [usleepByCounting],
    [for(i = 1; i < sleepCount; i++);] on a [uint32_t] counter, entered with
    the counter at [i]: the number of increments made, or [None] when
    [fuel] tests of the condition did not end it. *)
Fixpoint counting_loop (fuel : nat) (i sleepCount : Z) : option Z :=
  match fuel with
  | O => None
  | S fuel' =>
    if i <? sleepCount then
      match counting_loop fuel' (to_uint32 (i + 1)) sleepCount with
      | Some n => Some (n + 1)
      | None => None
      end
    else Some 0
  end.

(** ** setBetweenByteDelay_us and the constructor *)

(** Conversion of a double to an integer type that holds [lo .. hi - 1]: the
    fraction is discarded; the behaviour is undefined when the integer part
    does not fit, and for infinities and NaN. *)
Definition double_to_integer (lo hi : Z) (x : double) : option Z :=
  match trunc_double x with
  | Some z => if (lo <=? z) && (z <? hi) then Some z else None
  | None => None
  end.

Definition set_m_betweenByteSleepCount (v : Z) (o : SoftSpi) : SoftSpi :=
  {| m_mode := m_mode o; m_cpol := m_cpol o; m_frequency := m_frequency o;
     m_clockSleepCount := m_clockSleepCount o;
     m_betweenByteSleepCount := v |}.

Section Delay.

(** The calibration constant of the header. *)
Variable LOOPS_PER_SECOND : Z.

(** The integer type of the member [m_betweenByteSleepCount] is declared in
    the header, which is not part of the sources at hand: it holds the values
    [count_min .. count_max - 1]. *)
Variables count_min count_max : Z.

(** The value of
    [((double)t / 1000.0 / 1000.0) * (double)LOOPS_PER_SECOND]. *)
Definition between_byte_delay (t : Z) : double :=
  dmul (ddiv (ddiv (double_of_Z t) (double_of_Z 1000)) (double_of_Z 1000))
       (double_of_Z LOOPS_PER_SECOND).

(** [void SoftSpi::setBetweenByteDelay_us(uint32_t t)] *)
Definition setBetweenByteDelay_us (t : Z) : M unit :=
  match double_to_integer count_min count_max (between_byte_delay t) with
  | None => undefined
  | Some c => modify_self (set_m_betweenByteSleepCount c)
  end.

(** The defaults of the header. *)
Variables DEFAULT_SPI_MODE DEFAULT_FREQUENCY DEFAULT_BETWEEN_BYTE_DELAY_US : Z.

(** [SoftSpi::SoftSpi(sck, mosi, miso)]: the body of the constructor; the
    state it starts from holds whatever the members contain before they are
    assigned. *)
Definition SoftSpi_new : M unit :=
  setMode DEFAULT_SPI_MODE ;;
  setFrequency LOOPS_PER_SECOND DEFAULT_FREQUENCY ;;
  setBetweenByteDelay_us DEFAULT_BETWEEN_BYTE_DELAY_US.

End Delay.

(** * Properties of the engine *)

(** ** setMode *)

Lemma setMode_eq (mode : Z) (s : State) :
  setMode mode s =
  let cpol := if (mode =? 2) || (mode =? 3) then 1 else 0 in
  Some (tt, {| self := set_m_cpol cpol (set_m_mode mode (self s));
               world := log (GpioWrite SCK cpol) (drive SCK cpol (world s)) |}).
Proof.
  unfold setMode, bind, modify_self, get_self, mraa_gpio_write; cbn.
  destruct ((mode =? 2) || (mode =? 3)); reflexivity.
Qed.

Lemma invalid_mode_cpol (m : Z) :
  ~ valid_mode m -> (m =? 2) || (m =? 3) = false.
Proof.
  unfold valid_mode; intros H.
  apply orb_false_iff; split; apply Z.eqb_neq; intros ->; apply H; auto.
Qed.

(** C5. For every valid mode m, [setMode m] returns normally, stores m, sets
    the derived CPOL by the table 0->0, 1->0, 2->1, 3->1, and its only effect
    on the outside is one write that drives the clock line to the level equal
    to that CPOL, at the call itself (no transfer is involved). *)
Theorem setMode_valid (m : Z) (s : State) :
  valid_mode m ->
  exists s',
    setMode m s = Some (tt, s') /\
    m_mode (self s') = m /\
    m_cpol (self s') = derivedCPOL m /\
    (m = 0 \/ m = 1 -> m_cpol (self s') = 0 /\ sck_level (world s') = 0) /\
    (m = 2 \/ m = 3 -> m_cpol (self s') = 1 /\ sck_level (world s') = 1) /\
    sck_level (world s') = m_cpol (self s') /\
    appended s s' [GpioWrite SCK (derivedCPOL m)] /\
    configured s'.
Proof.
  intros Hm. rewrite setMode_eq. eexists; split; [reflexivity|].
  unfold appended, configured.
  destruct Hm as [-> | [-> | [-> | ->]]]; cbn;
    repeat split; try reflexivity; try lia; unfold valid_mode; auto;
    intros [H | H]; discriminate H.
Qed.

Lemma setMode_valid_witness :
  exists s', setMode 2 mode3_state = Some (tt, s') /\ m_cpol (self s') = 1.
Proof.
  destruct (setMode_valid 2 mode3_state) as (s' & H & _ & Hc & _).
  - unfold valid_mode; auto.
  - exists s'; split; [exact H | exact Hc].
Defined.

(** C10. For every mode value m outside 0..3, [setMode m] stores m as the
    current mode, sets CPOL to 0 and drives the clock line to level 0. *)
Theorem setMode_invalid_stores (m : Z) (s : State) :
  ~ valid_mode m ->
  exists s',
    setMode m s = Some (tt, s') /\
    m_mode (self s') = m /\
    m_cpol (self s') = 0 /\
    sck_level (world s') = 0 /\
    appended s s' [GpioWrite SCK 0].
Proof.
  intros Hm. rewrite setMode_eq, (invalid_mode_cpol m Hm).
  eexists; split; [reflexivity|]. unfold appended; cbn. auto.
Qed.

Lemma setMode_invalid_stores_witness :
  exists s', setMode 4 mode3_state = Some (tt, s') /\ m_mode (self s') = 4.
Proof.
  destruct (setMode_invalid_stores 4 mode3_state) as (s' & H & Hm & _).
  - unfold valid_mode; lia.
  - exists s'; split; [exact H | exact Hm].
Defined.

(** C1, as stated, fails: on a device in mode 3 (CPOL 1, clock high),
    [setMode 4] returns normally, and the mode, the CPOL and the level of the
    clock line have all three changed. *)
Lemma setMode_invalid_not_rejected :
  ~ valid_mode 4 /\
  exists s',
    setMode 4 mode3_state = Some (tt, s') /\
    m_mode (self s') <> m_mode (self mode3_state) /\
    m_cpol (self s') <> m_cpol (self mode3_state) /\
    sck_level (world s') <> sck_level (world mode3_state).
Proof.
  split; [unfold valid_mode; lia|].
  eexists; split; [reflexivity|]. cbn. repeat split; discriminate.
Qed.

(** ** usleepByCounting *)

(** A count of 0 and a count of 1 wait equally long: the loop body never
    runs. *)
Lemma usleepByCounting_no_iteration :
  usleepByCounting_iterations 0 = 0 /\ usleepByCounting_iterations 1 = 0.
Proof. split; reflexivity. Qed.

Lemma usleepByCounting_iterations_count (sleepCount : Z) :
  1 <= sleepCount -> usleepByCounting_iterations sleepCount = sleepCount - 1.
Proof. unfold usleepByCounting_iterations. lia. Qed.

(** ** writeBit *)

Lemma events_replay (evs : list Event) (w : World) :
  events (replay evs w) = events w ++ evs.
Proof.
  revert w; induction evs as [|e evs IH]; intros w; cbn.
  - now rewrite app_nil_r.
  - unfold replay in IH. rewrite IH.
    replace (events (apply_event w e)) with (events w ++ [e]).
    + now rewrite <- app_assoc.
    + destruct e as [[] v| | |]; reflexivity.
Qed.

Lemma replay_app (evs1 evs2 : list Event) (w : World) :
  replay (evs1 ++ evs2) w = replay evs2 (replay evs1 w).
Proof. apply fold_left_app. Qed.

Lemma derivedCPOL_cases (m : Z) :
  valid_mode m ->
  (if derivedCPOL m =? 0 then 1 else 0) = opposite (derivedCPOL m) /\
  (if derivedCPOL m =? 0 then 0 else 1) = derivedCPOL m.
Proof. intros [-> | [-> | [-> | ->]]]; split; reflexivity. Qed.

Section BitEngine.

Variable miso_line : World -> Z.

Lemma writeBit_cpha0 (bit : Z) (s : State) :
  configured s ->
  m_mode (self s) = 0 \/ m_mode (self s) = 2 ->
  let cpol := derivedCPOL (m_mode (self s)) in
  let c := m_clockSleepCount (self s) in
  let before := cpha0_before_sample c (level_of bit) in
  let inBit := miso_line (replay before (world s)) in
  writeBit miso_line bit s =
  Some (to_uint8 inBit,
        {| self := self s;
           world := replay (before ++ cpha0_from_sample cpol c inBit) (world s) |}).
Proof.
  intros [Hv Hc] Hm. unfold writeBit, bind, get_self.
  replace ((m_mode (self s) =? 0) || (m_mode (self s) =? 2)) with true
    by (destruct Hm as [-> | ->]; reflexivity).
  rewrite Hc. destruct (derivedCPOL_cases _ Hv) as [-> ->].
  reflexivity.
Qed.

Lemma writeBit_cpha1 (bit : Z) (s : State) :
  configured s ->
  m_mode (self s) = 1 \/ m_mode (self s) = 3 ->
  let cpol := derivedCPOL (m_mode (self s)) in
  let c := m_clockSleepCount (self s) in
  let before := cpha1_before_sample cpol c (level_of bit) in
  let inBit := miso_line (replay before (world s)) in
  writeBit miso_line bit s =
  Some (to_uint8 inBit,
        {| self := self s;
           world := replay (before ++ cpha1_from_sample c inBit) (world s) |}).
Proof.
  intros [Hv Hc] Hm. unfold writeBit, bind, get_self.
  replace ((m_mode (self s) =? 0) || (m_mode (self s) =? 2)) with false
    by (destruct Hm as [-> | ->]; reflexivity).
  replace ((m_mode (self s) =? 1) || (m_mode (self s) =? 3)) with true
    by (destruct Hm as [-> | ->]; reflexivity).
  rewrite Hc. destruct (derivedCPOL_cases _ Hv) as [-> ->].
  reflexivity.
Qed.

Lemma writeBit_unhandled (bit : Z) (s : State) :
  ~ valid_mode (m_mode (self s)) ->
  writeBit miso_line bit s =
  Some (255, {| self := self s;
                world := log (Printf (m_mode (self s))) (world s) |}).
Proof.
  intros Hm. unfold writeBit, bind, get_self.
  replace ((m_mode (self s) =? 0) || (m_mode (self s) =? 2)) with false.
  replace ((m_mode (self s) =? 1) || (m_mode (self s) =? 3)) with false.
  - reflexivity.
  - symmetry; apply orb_false_iff; split; apply Z.eqb_neq; intros E;
      apply Hm; unfold valid_mode; auto.
  - symmetry; apply orb_false_iff; split; apply Z.eqb_neq; intros E;
      apply Hm; unfold valid_mode; auto.
Qed.

End BitEngine.

Lemma valid_modeb_spec (m : Z) : valid_modeb m = true <-> valid_mode m.
Proof.
  unfold valid_modeb, valid_mode.
  rewrite !orb_true_iff, !Z.eqb_eq. tauto.
Qed.

Lemma count_usleep_app (a b : list Event) :
  count_usleep (a ++ b) = (count_usleep a + count_usleep b)%nat.
Proof.
  induction a as [|e a IH]; [reflexivity|].
  destruct e; cbn; now rewrite IH.
Qed.

Lemma to_uint8_range (x : Z) : 0 <= to_uint8 x < 256.
Proof. unfold to_uint8. apply Z.mod_pos_bound. lia. Qed.

Lemma to_uint8_small (x : Z) : 0 <= x < 256 -> to_uint8 x = x.
Proof. unfold to_uint8. intros H. now apply Z.mod_small. Qed.

Section Runs.

Variable miso_line : World -> Z.

(** Every call of [writeBit] returns: a byte value comes back, the object is
    unchanged, and the world has moved by a list of events. *)
Lemma writeBit_run (bit : Z) (s : State) :
  exists r evs,
    writeBit miso_line bit s =
      Some (r, {| self := self s; world := replay evs (world s) |}) /\
    0 <= r < 256 /\
    count_usleep evs = sleeps_per_bit (m_mode (self s)).
Proof.
  unfold writeBit, bind, get_self, sleeps_per_bit, valid_modeb.
  assert (Hop : (if m_cpol (self s) =? 0 then 1 else 0) =
                opposite (if m_cpol (self s) =? 0 then 0 else 1))
    by (destruct (m_cpol (self s) =? 0); reflexivity).
  rewrite Hop; clear Hop.
  destruct (m_mode (self s) =? 0) eqn:E0; cbn [orb].
  { eexists; eexists (cpha0_before_sample _ _ ++ cpha0_from_sample (if m_cpol (self s) =? 0 then 0 else 1) _ _).
    split; [|split; [apply to_uint8_range | reflexivity]].
    reflexivity. }
  destruct (m_mode (self s) =? 2) eqn:E2; cbn [orb].
  { eexists; eexists (cpha0_before_sample _ _ ++ cpha0_from_sample (if m_cpol (self s) =? 0 then 0 else 1) _ _).
    split; [|split; [apply to_uint8_range | rewrite orb_true_r; reflexivity]].
    reflexivity. }
  destruct (m_mode (self s) =? 1) eqn:E1; cbn [orb].
  { eexists; eexists (cpha1_before_sample (if m_cpol (self s) =? 0 then 0 else 1) _ _ ++ cpha1_from_sample _ _).
    split; [|split; [apply to_uint8_range | reflexivity]].
    reflexivity. }
  destruct (m_mode (self s) =? 3) eqn:E3; cbn [orb].
  { eexists; eexists (cpha1_before_sample (if m_cpol (self s) =? 0 then 0 else 1) _ _ ++ cpha1_from_sample _ _).
    split; [|split; [apply to_uint8_range | reflexivity]].
    reflexivity. }
  exists 255, [Printf (m_mode (self s))].
  split; [reflexivity | split; [lia | reflexivity]].
Qed.

End Runs.

(** ** writeByte *)

Lemma Z_range_forallb (f : Z -> bool) (n : nat) :
  forallb f (map Z.of_nat (seq 0 n)) = true ->
  forall z, 0 <= z < Z.of_nat n -> f z = true.
Proof.
  intros H z Hz. rewrite forallb_forall in H. apply H.
  rewrite <- (Z2Nat.id z) by lia. apply in_map, in_seq. lia.
Qed.

Lemma land_mask (b : Z) :
  Z.land b 0x80 = if Z.testbit b 7 then 0x80 else 0.
Proof.
  apply Z.bits_inj'; intros n Hn.
  rewrite Z.land_spec.
  change 0x80 with (2 ^ 7) at 1. rewrite Z.pow2_bits_eqb by lia.
  destruct (Z.eqb_spec 7 n) as [<- | Hne].
  - rewrite andb_true_r. destruct (Z.testbit b 7) eqn:E; [reflexivity|].
    now rewrite Z.bits_0.
  - rewrite andb_false_r. destruct (Z.testbit b 7).
    + change 0x80 with (2 ^ 7). rewrite Z.pow2_bits_eqb by lia.
      symmetry; now apply Z.eqb_neq.
    + now rewrite Z.bits_0.
Qed.

Lemma land_mask_uint8 (b : Z) : to_uint8 (Z.land b 0x80) = Z.land b 0x80.
Proof.
  rewrite land_mask. destruct (Z.testbit b 7); reflexivity.
Qed.

Lemma accumulate_uint8 (acc x : Z) :
  x = 0 \/ x = 1 ->
  to_uint8 (Z.lor (to_uint8 (Z.shiftl acc 1)) x) =
  Z.lor (to_uint8 (Z.shiftl acc 1)) x.
Proof.
  intros Hx. apply to_uint8_small.
  pose proof (to_uint8_range (Z.shiftl acc 1)) as Hr.
  split.
  - apply Z.lor_nonneg; lia.
  - destruct Hx as [-> | ->]; [rewrite Z.lor_0_r; lia|].
    apply Z.ltb_lt.
    apply (Z_range_forallb (fun a => Z.lor a 1 <? 256) 256);
      [vm_compute; reflexivity | lia].
Qed.

Lemma accumulate_arith (acc x : Z) :
  0 <= acc < 128 -> x = 0 \/ x = 1 ->
  to_uint8 (Z.lor (to_uint8 (Z.shiftl acc 1)) x) = 2 * acc + x.
Proof.
  intros Ha Hx. apply Z.eqb_eq.
  destruct Hx as [-> | ->].
  - apply (Z_range_forallb
             (fun a => to_uint8 (Z.lor (to_uint8 (Z.shiftl a 1)) 0) =? 2 * a + 0)
             128); [vm_compute; reflexivity | lia].
  - apply (Z_range_forallb
             (fun a => to_uint8 (Z.lor (to_uint8 (Z.shiftl a 1)) 1) =? 2 * a + 1)
             128); [vm_compute; reflexivity | lia].
Qed.

Lemma received_bit_cases (r : Z) :
  (if r =? 0 then 0 else 1) = 0 \/ (if r =? 0 then 0 else 1) = 1.
Proof. destruct (r =? 0); auto. Qed.

Lemma shifted_bits (b : Z) (i : nat) :
  Z.testbit (to_uint8 (Z.shiftl b 1)) (7 - Z.of_nat i) =
  Z.testbit b (7 - Z.of_nat (S i)).
Proof.
  unfold to_uint8. change 256 with (2 ^ 8).
  destruct (Z_lt_le_dec (7 - Z.of_nat i) 0) as [Hneg | Hpos].
  - rewrite !Z.testbit_neg_r by lia. reflexivity.
  - rewrite Z.mod_pow2_bits_low by lia.
    rewrite Z.shiftl_spec by lia. f_equal. lia.
Qed.

Lemma top_bits_succ (n : nat) (b : Z) :
  top_bits (S n) b = Z.testbit b 7 :: top_bits n (to_uint8 (Z.shiftl b 1)).
Proof.
  unfold top_bits. cbn [seq map]. f_equal.
  rewrite <- seq_shift, map_map. apply map_ext.
  intros i. symmetry. apply shifted_bits.
Qed.

Lemma top_bits_value (b : Z) :
  0 <= b < 256 -> bits_value (top_bits 8 b) 0 = b.
Proof.
  intros Hb. apply Z.eqb_eq.
  apply (Z_range_forallb (fun b => bits_value (top_bits 8 b) 0 =? b) 256);
    [vm_compute; reflexivity | lia].
Qed.

Section ByteEngine.

Variable miso_line : World -> Z.

Lemma writeByte_loop_spec (n : nat) (byte result : Z) (s : State) :
  writeByte_loop miso_line n byte result s =
  exchangeByte_iter (writeBit miso_line) n byte result s.
Proof.
  revert byte result s; induction n as [|n IH]; intros byte result s;
    [reflexivity|].
  cbn [writeByte_loop exchangeByte_iter]. unfold bind.
  rewrite land_mask_uint8.
  destruct (writeBit miso_line (Z.land byte 128) s) as [[r s1]|]; [|reflexivity].
  rewrite accumulate_uint8 by apply received_bit_cases.
  apply IH.
Qed.

Lemma writeByte_loop_bits (n : nat) (byte result : Z) (s : State) :
  (n <= 8)%nat ->
  0 <= result < 2 ^ (8 - Z.of_nat n) ->
  writeByte_loop miso_line n byte result s =
  exchange_bits (writeBit miso_line) (top_bits n byte) result s.
Proof.
  revert byte result s; induction n as [|n IH]; intros byte result s Hn Hr;
    [reflexivity|].
  rewrite top_bits_succ.
  cbn [writeByte_loop exchange_bits]. unfold bind.
  rewrite land_mask_uint8, land_mask.
  destruct (writeBit miso_line (if Z.testbit byte 7 then 128 else 0) s)
    as [[r s1]|]; [|reflexivity].
  assert (Hp : 2 ^ (8 - Z.of_nat n) = 2 * 2 ^ (8 - Z.of_nat (S n))).
  { rewrite <- Z.pow_succ_r by lia. f_equal. lia. }
  assert (Hle : 2 ^ (8 - Z.of_nat (S n)) <= 2 ^ 7)
    by (apply Z.pow_le_mono_r; lia).
  change (2 ^ 7) with 128 in Hle.
  pose proof (received_bit_cases r) as Hx.
  rewrite accumulate_arith by (try assumption; lia).
  apply IH; [lia|]. rewrite Hp. lia.
Qed.

Lemma writeBit_loopback (bit : Z) (s : State) :
  (forall w, miso_line w = mosi_level w) ->
  valid_mode (m_mode (self s)) ->
  exists s',
    writeBit miso_line bit s = Some (level_of bit, s') /\ self s' = self s.
Proof.
  intros Hloop Hm. unfold writeBit, bind, get_self, mraa_gpio_read.
  assert (Hl : to_uint8 (level_of bit) = level_of bit)
    by (unfold level_of; destruct (bit =? 0); reflexivity).
  destruct Hm as [-> | [-> | [-> | ->]]]; cbn [Z.eqb orb Pos.eqb];
    unfold mraa_gpio_write, usleepByCounting, ret;
    cbn [world self]; rewrite Hloop; cbn [drive log mosi_level];
    fold (level_of bit); rewrite Hl; eexists; split; reflexivity.
Qed.

Lemma exchange_bits_loopback (outs : list bool) (acc : Z) (s : State) :
  (forall w, miso_line w = mosi_level w) ->
  valid_mode (m_mode (self s)) ->
  exists s',
    exchange_bits (writeBit miso_line) outs acc s =
      Some (bits_value outs acc, s') /\
    self s' = self s.
Proof.
  intros Hloop. revert acc s; induction outs as [|o outs IH]; intros acc s Hm.
  - exists s; split; reflexivity.
  - cbn [exchange_bits]. unfold bind.
    destruct (writeBit_loopback (if o then 128 else 0) s Hloop Hm)
      as (s1 & -> & Hs1).
    rewrite <- Hs1 in Hm. destruct (IH (2 * acc + (if level_of (if o then 128 else 0) =? 0 then 0 else 1)) s1 Hm)
      as (s2 & H2 & Hs2).
    exists s2. split; [|congruence].
    rewrite H2. cbn [bits_value fold_left]. destruct o; reflexivity.
Qed.

Lemma writeByte_loop_unhandled (n : nat) (byte result : Z) (s : State) :
  ~ valid_mode (m_mode (self s)) ->
  writeByte_loop miso_line n byte result s =
  Some (all_ones n result,
        {| self := self s;
           world := replay (repeat (Printf (m_mode (self s))) n) (world s) |}).
Proof.
  revert byte result s; induction n as [|n IH]; intros byte result s Hm.
  - destruct s as [o w]; reflexivity.
  - cbn [writeByte_loop]. unfold bind.
    rewrite writeBit_unhandled by exact Hm.
    rewrite IH by exact Hm. reflexivity.
Qed.

Lemma writeByte_loop_run (n : nat) (byte result : Z) (s : State) :
  0 <= result < 256 ->
  exists r evs,
    writeByte_loop miso_line n byte result s =
      Some (r, {| self := self s; world := replay evs (world s) |}) /\
    0 <= r < 256 /\
    count_usleep evs = (n * sleeps_per_bit (m_mode (self s)))%nat.
Proof.
  revert byte result s; induction n as [|n IH]; intros byte result s Hr.
  - exists result, []. destruct s as [o w]; auto.
  - cbn [writeByte_loop]. unfold bind.
    destruct (writeBit_run miso_line (to_uint8 (Z.land byte 128)) s)
      as (r & evs & -> & _ & Hc).
    edestruct IH as (r' & evs' & -> & Hr' & Hc'); [apply to_uint8_range|].
    exists r', (evs ++ evs'). cbn [self world].
    rewrite replay_app, count_usleep_app, Hc, Hc'. cbn [self].
    split; [reflexivity | split; [exact Hr' | lia]].
Qed.

End ByteEngine.

(** C4. In a configured state, a bit exchange in mode 0 or 2 does exactly:
    drive data-out, wait one half period, sample data-in, drive the clock to
    the level opposite CPOL, wait one half period, drive the clock back to
    CPOL's level, and returns the sample; in mode 1 or 3 it does exactly:
    drive the clock to the level opposite CPOL, drive data-out, wait one half
    period, drive the clock back to CPOL's level, sample data-in, wait one
    half period, and returns the sample.  Data-out is driven to the bit
    itself when the bit is 0 or 1. *)
Theorem writeBit_sequence (miso_line : World -> Z) (outBit : Z) (s : State) :
  configured s ->
  let mode := m_mode (self s) in
  let cpol := m_cpol (self s) in
  let half := m_clockSleepCount (self s) in
  let out := level_of outBit in
  (mode = 0 \/ mode = 2 ->
   let inBit := miso_line (replay [GpioWrite MOSI out; Usleep half] (world s)) in
   let evs := [GpioWrite MOSI out; Usleep half; GpioRead MISO inBit;
               GpioWrite SCK (opposite cpol); Usleep half; GpioWrite SCK cpol] in
   exists s',
     writeBit miso_line outBit s = Some (to_uint8 inBit, s') /\
     self s' = self s /\ world s' = replay evs (world s) /\
     appended s s' evs /\
     (inBit = 0 \/ inBit = 1 -> to_uint8 inBit = inBit)) /\
  (mode = 1 \/ mode = 3 ->
   let inBit := miso_line (replay [GpioWrite SCK (opposite cpol);
                                   GpioWrite MOSI out; Usleep half;
                                   GpioWrite SCK cpol] (world s)) in
   let evs := [GpioWrite SCK (opposite cpol); GpioWrite MOSI out; Usleep half;
               GpioWrite SCK cpol; GpioRead MISO inBit; Usleep half] in
   exists s',
     writeBit miso_line outBit s = Some (to_uint8 inBit, s') /\
     self s' = self s /\ world s' = replay evs (world s) /\
     appended s s' evs /\
     (inBit = 0 \/ inBit = 1 -> to_uint8 inBit = inBit)) /\
  (outBit = 0 \/ outBit = 1 -> out = outBit).
Proof.
  intros Hs; cbv zeta. pose proof Hs as [_ Hc]. rewrite Hc.
  split; [|split].
  - intros Hm. eexists. rewrite (writeBit_cpha0 miso_line outBit s Hs Hm).
    split; [reflexivity|]. split; [reflexivity|]. split; [reflexivity|].
    split; [|intros [-> | ->]; reflexivity].
    unfold appended; cbn [world]. apply events_replay.
  - intros Hm. eexists. rewrite (writeBit_cpha1 miso_line outBit s Hs Hm).
    split; [reflexivity|]. split; [reflexivity|]. split; [reflexivity|].
    split; [|intros [-> | ->]; reflexivity].
    unfold appended; cbn [world]. apply events_replay.
  - intros [-> | ->]; reflexivity.
Qed.

Lemma writeBit_sequence_witness :
  exists s',
    writeBit mosi_level 1 mode3_state = Some (1, s') /\
    appended mode3_state s'
      [GpioWrite SCK 0; GpioWrite MOSI 1; Usleep 50; GpioWrite SCK 1;
       GpioRead MISO 1; Usleep 50].
Proof.
  assert (Hs : configured mode3_state).
  { split; [unfold valid_mode; cbn; auto | reflexivity]. }
  destruct (writeBit_sequence mosi_level 1 mode3_state Hs) as (_ & H & _).
  destruct H as (s' & H1 & _ & _ & H2 & _); [cbn; auto|].
  exists s'. split; [exact H1 | exact H2].
Defined.

(** C9. When the stored mode is none of 0..3, [writeBit] returns 255 for
    every bit, printing the diagnostic and driving no line, and [writeByte]
    returns 0xFF for every byte, again without driving any line. *)
Theorem unhandled_mode_sentinel (miso_line : World -> Z) (bit byte : Z)
    (s : State) :
  ~ valid_mode (m_mode (self s)) ->
  (exists s',
     writeBit miso_line bit s = Some (255, s') /\
     self s' = self s /\
     sck_level (world s') = sck_level (world s) /\
     mosi_level (world s') = mosi_level (world s) /\
     appended s s' [Printf (m_mode (self s))]) /\
  (exists s',
     writeByte miso_line byte s = Some (0xFF, s') /\
     self s' = self s /\
     sck_level (world s') = sck_level (world s) /\
     mosi_level (world s') = mosi_level (world s) /\
     appended s s' (repeat (Printf (m_mode (self s))) 8)).
Proof.
  intros Hm. split.
  - rewrite writeBit_unhandled by exact Hm.
    eexists; split; [reflexivity|]. unfold appended; cbn. auto.
  - unfold writeByte. rewrite writeByte_loop_unhandled by exact Hm.
    eexists; split; [reflexivity|]. unfold appended; cbn [self world].
    split; [reflexivity|]. rewrite events_replay. cbn. auto.
Qed.

Lemma unhandled_mode_sentinel_witness :
  exists s', writeByte mosi_level 0 mode4_state = Some (255, s').
Proof.
  destruct (unhandled_mode_sentinel mosi_level 0 0 mode4_state) as (_ & s' & H & _).
  - unfold valid_mode; cbn; lia.
  - exists s'; exact H.
Defined.

(** C1, amended. For every mode value m outside 0..3, [setMode m] does not
    fail: it returns normally with m stored as the mode, the frequency and
    delay settings and the data-out line untouched; the invalid mode shows
    only at the next bit exchange, where [writeBit] prints the diagnostic
    and returns the sentinel 255. *)
Theorem setMode_invalid_deferred (miso_line : World -> Z) (m bit : Z)
    (s : State) :
  ~ valid_mode m ->
  exists s1 s2,
    setMode m s = Some (tt, s1) /\
    m_mode (self s1) = m /\
    m_frequency (self s1) = m_frequency (self s) /\
    m_clockSleepCount (self s1) = m_clockSleepCount (self s) /\
    m_betweenByteSleepCount (self s1) = m_betweenByteSleepCount (self s) /\
    mosi_level (world s1) = mosi_level (world s) /\
    writeBit miso_line bit s1 = Some (255, s2) /\
    appended s s2 [GpioWrite SCK 0; Printf m].
Proof.
  intros Hm. rewrite setMode_eq, (invalid_mode_cpol m Hm). cbv zeta.
  eexists; eexists. split; [reflexivity|].
  rewrite writeBit_unhandled by exact Hm.
  cbn [self world set_m_cpol set_m_mode m_mode m_frequency m_clockSleepCount
       m_betweenByteSleepCount].
  repeat (split; [reflexivity|]).
  unfold appended; cbn. now rewrite <- app_assoc.
Qed.

Lemma setMode_invalid_deferred_witness :
  exists s1 s2,
    setMode 4 mode3_state = Some (tt, s1) /\
    writeBit mosi_level 1 s1 = Some (255, s2).
Proof.
  destruct (setMode_invalid_deferred mosi_level 4 1 mode3_state)
    as (s1 & s2 & H1 & _ & _ & _ & _ & _ & H2 & _).
  - unfold valid_mode; lia.
  - exists s1, s2; split; [exact H1 | exact H2].
Defined.

(** C6. [writeByte] is the eight-iteration loop of the specification (top bit
    by mask 0x80, outgoing byte shifted left by one, bit exchange,
    accumulator shifted left and OR-ed with 0 or 1), and this sends the
    eight bits of the byte most significant first, the accumulator after the
    eighth exchange being the result. *)
Theorem writeByte_msb_first (miso_line : World -> Z) (byte : Z) (s : State) :
  writeByte miso_line byte s = exchangeByte_spec (writeBit miso_line) byte s /\
  writeByte miso_line byte s =
    exchange_bits (writeBit miso_line)
      [Z.testbit byte 7; Z.testbit byte 6; Z.testbit byte 5; Z.testbit byte 4;
       Z.testbit byte 3; Z.testbit byte 2; Z.testbit byte 1; Z.testbit byte 0]
      0 s.
Proof.
  split.
  - apply writeByte_loop_spec.
  - unfold writeByte. rewrite writeByte_loop_bits by (cbn; lia).
    reflexivity.
Qed.

(** C3. Loopback: when data-in always shows the level last driven on
    data-out, in every mode 0..3 [writeByte b] returns b, for every byte
    value b. *)
Theorem writeByte_loopback (miso_line : World -> Z) (b : Z) (s : State) :
  (forall w, miso_line w = mosi_level w) ->
  valid_mode (m_mode (self s)) ->
  0 <= b < 256 ->
  exists s', writeByte miso_line b s = Some (b, s') /\ self s' = self s.
Proof.
  intros Hloop Hm Hb. unfold writeByte.
  rewrite writeByte_loop_bits by (cbn; lia).
  destruct (exchange_bits_loopback miso_line (top_bits 8 b) 0 s Hloop Hm)
    as (s' & H & Hs).
  exists s'. rewrite H, top_bits_value by exact Hb. auto.
Qed.

Lemma writeByte_loopback_witness :
  exists s', writeByte mosi_level 0xA5 mode0_state = Some (0xA5, s').
Proof.
  destruct (writeByte_loopback mosi_level 0xA5 mode0_state) as (s' & H & _).
  - reflexivity.
  - unfold valid_mode; cbn; auto.
  - lia.
  - exists s'; exact H.
Defined.

(** ** write *)

Section TransferEngine.

Variable miso_line : World -> Z.

Lemma write_loop_spec (rest pre : list Z) (s : State) :
  write_loop miso_line (length rest) (length pre) (pre ++ rest) s =
  (let* outs := transfer_spec (writeByte miso_line) rest in
   ret (pre ++ outs)) s.
Proof.
  revert pre s; induction rest as [|b rest IH]; intros pre s.
  - reflexivity.
  - cbn [length write_loop transfer_spec].
    rewrite list_lookup_middle by reflexivity.
    unfold bind, get_self, usleepByCounting, ret.
    destruct (writeByte miso_line b s) as [[r s1]|]; [|reflexivity].
    replace (<[length pre := r]> (pre ++ b :: rest)) with ((pre ++ [r]) ++ rest).
    + replace (S (length pre)) with (length (pre ++ [r]))
        by (rewrite length_app; cbn; lia).
      rewrite IH. unfold bind, ret.
      match goal with
      | |- match ?c with _ => _ end = _ => destruct c as [[outs s2]|]
      end; [|reflexivity].
      now rewrite <- app_assoc.
    + rewrite insert_app_r_alt by lia.
      rewrite Nat.sub_diag, <- app_assoc. reflexivity.
Qed.

Lemma transfer_spec_run (buffer : list Z) (s : State) :
  exists out evs,
    transfer_spec (writeByte miso_line) buffer s =
      Some (out, {| self := self s; world := replay evs (world s) |}) /\
    length out = length buffer /\
    count_usleep evs =
      (length buffer * (8 * sleeps_per_bit (m_mode (self s)) + 1))%nat /\
    (buffer = [] -> evs = []) /\
    (buffer <> [] ->
     exists evs', evs = evs' ++ [Usleep (m_betweenByteSleepCount (self s))]).
Proof.
  revert s; induction buffer as [|b rest IH]; intros s.
  - exists [], []. destruct s as [o w]. cbn. repeat split; congruence.
  - cbn [transfer_spec]. unfold bind at 1.
    change (writeByte miso_line b s) with (writeByte_loop miso_line 8 b 0 s).
    destruct (writeByte_loop_run miso_line 8 b 0 s) as (r & evs1 & -> & _ & Hc1);
      [lia|].
    unfold bind, get_self, usleepByCounting. cbn [self world].
    set (bt := m_betweenByteSleepCount (self s)).
    destruct (IH {| self := self s;
                    world := log (Usleep bt) (replay evs1 (world s)) |})
      as (outs & evs2 & -> & Hlen & Hc2 & Hnil & Hlast).
    cbn [self world] in *.
    exists (r :: outs), (evs1 ++ Usleep bt :: evs2).
    split; [|split; [|split; [|split]]].
    + unfold ret. do 3 f_equal.
      rewrite replay_app. reflexivity.
    + cbn. now rewrite Hlen.
    + rewrite count_usleep_app. cbn [count_usleep length].
      rewrite Hc1, Hc2. lia.
    + discriminate.
    + intros _. destruct rest as [|b' rest'].
      * rewrite Hnil by reflexivity. exists evs1. reflexivity.
      * destruct Hlast as (evs' & ->); [discriminate|].
        exists (evs1 ++ Usleep bt :: evs'). now rewrite <- app_assoc.
Qed.

End TransferEngine.

(** C7. [write], called on a whole buffer, visits the positions in order and
    puts at each position the byte returned by the exchange of the byte found
    there, in the buffer itself; each byte is followed by one inter-byte
    delay: with two half periods per bit, the run waits 8 * 2 + 1 times per
    byte in a valid mode, and for a buffer that is not empty the last thing
    it does is the delay after the last byte. *)
Theorem write_in_place (miso_line : World -> Z) (buffer : list Z) (s : State) :
  write_method miso_line buffer s =
    transfer_spec (writeByte miso_line) buffer s /\
  exists out evs,
    write_method miso_line buffer s =
      Some (out, {| self := self s; world := replay evs (world s) |}) /\
    length out = length buffer /\
    count_usleep evs =
      (length buffer * (8 * sleeps_per_bit (m_mode (self s)) + 1))%nat /\
    (buffer <> [] ->
     exists evs', evs = evs' ++ [Usleep (m_betweenByteSleepCount (self s))]).
Proof.
  assert (E : write_method miso_line buffer s =
              transfer_spec (writeByte miso_line) buffer s).
  { unfold write_method, write.
    change (write_loop miso_line (length buffer) (length (@nil Z))
              ([] ++ buffer) s = transfer_spec (writeByte miso_line) buffer s).
    rewrite (write_loop_spec miso_line buffer [] s). unfold bind, ret.
    destruct (transfer_spec (writeByte miso_line) buffer s) as [[outs s']|];
      reflexivity. }
  split; [exact E|]. rewrite E.
  destruct (transfer_spec_run miso_line buffer s)
    as (out & evs & H & Hlen & Hc & _ & Hlast).
  exists out, evs. auto.
Qed.

Lemma write_in_place_witness :
  exists out s',
    write_method mosi_level [0xA5; 0x3C] mode0_state = Some (out, s') /\
    length out = 2%nat.
Proof.
  destruct (write_in_place mosi_level [0xA5; 0x3C] mode0_state)
    as (_ & out & evs & H & Hlen & _).
  exists out; eexists; split; [exact H | exact Hlen].
Defined.

(** * Double-precision arithmetic of the half period *)

(** ** Binary64: digits *)

Lemma digits2_pos_size (p : positive) : digits2_pos p = Pos.size p.
Proof. induction p; cbn; congruence. Qed.

Lemma Zdigits2_log2 (m : Z) : 0 < m -> Zdigits2 m = Z.log2 m + 1.
Proof.
  destruct m as [|p|p]; try lia. intros _. cbn [Zdigits2].
  rewrite digits2_pos_size.
  destruct p; cbn; lia.
Qed.

Lemma Zdigits2_bounds (m : Z) :
  0 < m -> 2 ^ (Zdigits2 m - 1) <= m < 2 ^ Zdigits2 m.
Proof.
  intros Hm. rewrite Zdigits2_log2 by exact Hm.
  replace (Z.log2 m + 1 - 1) with (Z.log2 m) by lia.
  apply Z.log2_spec; exact Hm.
Qed.

Lemma Zdigits2_unique (m d : Z) :
  2 ^ (d - 1) <= m < 2 ^ d -> 0 < d -> Zdigits2 m = d.
Proof.
  intros H Hd.
  assert (Hm : 0 < m).
  { assert (0 < 2 ^ (d - 1)) by (apply Z.pow_pos_nonneg; lia). lia. }
  rewrite Zdigits2_log2 by exact Hm.
  rewrite (Z.log2_unique m (d - 1)); [lia | lia |].
  replace (Z.succ (d - 1)) with d by lia. exact H.
Qed.

(** ** Binary64: iterated shift *)

Lemma iter_pos_nat {A} (f : A -> A) (p : positive) (x : A) :
  SpecFloat.iter_pos f p x = Nat.iter (Pos.to_nat p) f x.
Proof.
  revert x; induction p as [p IH | p IH |]; intros x; cbn [SpecFloat.iter_pos].
  - rewrite !IH. rewrite Pos2Nat.inj_xI.
    replace (S (2 * Pos.to_nat p))%nat with (Pos.to_nat p + (Pos.to_nat p + 1))%nat by lia.
    rewrite !Nat.iter_add. reflexivity.
  - rewrite !IH. rewrite Pos2Nat.inj_xO.
    replace (2 * Pos.to_nat p)%nat with (Pos.to_nat p + Pos.to_nat p)%nat by lia.
    rewrite Nat.iter_add. reflexivity.
  - reflexivity.
Qed.

Lemma shr_1_spec (m : Z) (r s : bool) :
  0 <= m ->
  shr_1 {| shr_m := m; shr_r := r; shr_s := s |} =
  {| shr_m := m / 2; shr_r := Z.odd m; shr_s := r || s |}.
Proof.
  intros Hm. destruct m as [|p|p]; [reflexivity| |lia].
  destruct p as [p|p|]; cbn [shr_1].
  - f_equal. rewrite Pos2Z.inj_xI. 
    rewrite Z.mul_comm, Z.div_add_l by lia. reflexivity.
  - f_equal. rewrite Pos2Z.inj_xO.
    rewrite Z.mul_comm, Z.div_mul by lia. reflexivity.
  - reflexivity.
Qed.

Lemma mod_pow2_succ (m k : Z) :
  0 <= k ->
  m mod 2 ^ (k + 1) = m mod 2 ^ k + 2 ^ k * (if Z.odd (m / 2 ^ k) then 1 else 0).
Proof.
  intros Hk.
  rewrite Z.pow_add_r, Z.pow_1_r by lia.
  rewrite Z.rem_mul_r by (try lia; apply Z.pow_nonzero; lia).
  f_equal. f_equal.
  rewrite Zmod_odd. reflexivity.
Qed.

Lemma shr_iter_spec (m : Z) (k : nat) :
  0 <= m ->
  Nat.iter (S k) shr_1 {| shr_m := m; shr_r := false; shr_s := false |} =
  {| shr_m := m / 2 ^ Z.of_nat (S k);
     shr_r := Z.odd (m / 2 ^ Z.of_nat k);
     shr_s := negb (m mod 2 ^ Z.of_nat k =? 0) |}.
Proof.
  intros Hm. induction k as [|k IH].
  - cbn [Nat.iter]. rewrite shr_1_spec by exact Hm.
    change (2 ^ Z.of_nat 1) with 2. change (2 ^ Z.of_nat 0) with 1.
    rewrite Z.div_1_r, Z.mod_1_r. reflexivity.
  - change (Nat.iter (S (S k)) shr_1 ?x) with (shr_1 (Nat.iter (S k) shr_1 x)).
    rewrite IH.
    assert (Hp : 0 < 2 ^ Z.of_nat (S k)) by (apply Z.pow_pos_nonneg; lia).
    rewrite shr_1_spec by (apply Z.div_pos; lia).
    f_equal.
    + rewrite Z.div_div by lia.
      f_equal. rewrite (Nat2Z.inj_succ (S k)), Z.pow_succ_r by lia. lia.
    + replace (Z.of_nat (S k)) with (Z.of_nat k + 1) by lia.
      rewrite mod_pow2_succ by lia.
      assert (H0 : 0 <= m mod 2 ^ Z.of_nat k < 2 ^ Z.of_nat k).
      { apply Z.mod_pos_bound. apply Z.pow_pos_nonneg; lia. }
      destruct (Z.odd (m / 2 ^ Z.of_nat k)); cbn [orb].
      * symmetry. apply negb_true_iff, Z.eqb_neq. lia.
      * rewrite Z.mul_0_r, Z.add_0_r. reflexivity.
Qed.

Lemma shr_exact_spec (m e n : Z) :
  0 <= m -> 0 < n ->
  shr {| shr_m := m; shr_r := false; shr_s := false |} e n =
  ({| shr_m := m / 2 ^ n;
      shr_r := Z.odd (m / 2 ^ (n - 1));
      shr_s := negb (m mod 2 ^ (n - 1) =? 0) |}, e + n).
Proof.
  intros Hm Hn. destruct n as [|p|p]; try lia.
  cbn [shr]. rewrite iter_pos_nat.
  destruct (Pos.to_nat p) as [|k] eqn:Ek; [lia|].
  rewrite shr_iter_spec by exact Hm.
  replace (Z.of_nat (S k)) with (Z.pos p) by lia.
  replace (Z.of_nat k) with (Z.pos p - 1) by lia.
  reflexivity.
Qed.

(** Rounding the shifted record is rounding the quotient by the power. *)
Lemma round_shr_spec (m k : Z) :
  0 <= m -> 0 <= k ->
  round_nearest_even (m / 2 ^ (k + 1))
    (loc_of_shr_record {| shr_m := m / 2 ^ (k + 1);
                          shr_r := Z.odd (m / 2 ^ k);
                          shr_s := negb (m mod 2 ^ k =? 0) |}) =
  rne_div m (2 ^ (k + 1)).
Proof.
  intros Hm Hk. unfold rne_div.
  rewrite mod_pow2_succ by lia.
  assert (H0 : 0 <= m mod 2 ^ k < 2 ^ k).
  { apply Z.mod_pos_bound. apply Z.pow_pos_nonneg; lia. }
  assert (Hp : 2 ^ (k + 1) = 2 * 2 ^ k).
  { rewrite Z.pow_add_r, Z.pow_1_r by lia. lia. }
  rewrite Hp.
  unfold loc_of_shr_record.
  destruct (Z.odd (m / 2 ^ k));
    destruct (Z.eqb_spec (m mod 2 ^ k) 0) as [E|E];
    cbn [negb round_nearest_even].
  - rewrite E. replace (2 * (0 + 2 ^ k * 1) ?= 2 * 2 ^ k) with Eq; [reflexivity|].
    symmetry; apply Z.compare_eq_iff; lia.
  - replace (2 * (m mod 2 ^ k + 2 ^ k * 1) ?= 2 * 2 ^ k) with Gt; [reflexivity|].
    symmetry; apply Z.compare_gt_iff; lia.
  - rewrite E. replace (2 * (0 + 2 ^ k * 0) ?= 2 * 2 ^ k) with Lt; [reflexivity|].
    symmetry; apply Z.compare_lt_iff; lia.
  - replace (2 * (m mod 2 ^ k + 2 ^ k * 0) ?= 2 * 2 ^ k) with Lt; [reflexivity|].
    symmetry; apply Z.compare_lt_iff; lia.
Qed.

(** ** Binary64: rne_div *)

Lemma rne_div_cases (N D : Z) :
  0 < D ->
  exists q r, N = D * q + r /\ 0 <= r < D /\
    ((2 * r < D /\ rne_div N D = q) \/
     (2 * r = D /\ rne_div N D = q /\ Z.even q = true) \/
     (2 * r = D /\ rne_div N D = q + 1 /\ Z.even q = false) \/
     (D < 2 * r /\ rne_div N D = q + 1)).
Proof.
  intros HD. exists (N / D), (N mod D).
  split; [apply Z.div_mod; lia|].
  split; [apply Z.mod_pos_bound; lia|].
  unfold rne_div.
  destruct (Z.compare_spec (2 * (N mod D)) D) as [E|E|E].
  - destruct (Z.even (N / D)) eqn:Ev.
    + right; left. auto.
    + right; right; left. auto.
  - left. auto.
  - right; right; right. auto.
Qed.

Lemma rne_div_near (N D : Z) :
  0 < D ->
  D * (2 * rne_div N D - 1) <= 2 * N <= D * (2 * rne_div N D + 1).
Proof.
  intros HD.
  destruct (rne_div_cases N D HD) as (q & r & -> & Hr & H).
  destruct H as [[H ->] | [[H [-> _]] | [[H [-> _]] | [H ->]]]]; nia.
Qed.

Lemma rne_div_exact (k D : Z) : 0 < D -> rne_div (k * D) D = k.
Proof.
  intros HD. unfold rne_div.
  rewrite Z.div_mul by lia. rewrite Z_mod_mult.
  destruct (Z.compare_spec (2 * 0) D); lia.
Qed.

Lemma rne_div_range (N D a b : Z) :
  0 < D -> a * D <= N <= b * D -> a <= rne_div N D <= b.
Proof.
  intros HD [Ha Hb].
  destruct (rne_div_cases N D HD) as (q & r & -> & Hr & H).
  assert (Hq : a <= q) by nia.
  assert (Hq' : q < b \/ (q = b /\ r = 0)) by nia.
  destruct H as [[H ->] | [[H [-> _]] | [[H [-> _]] | [H ->]]]]; nia.
Qed.

Lemma rne_div_eq (N1 D1 N2 D2 : Z) :
  0 < D1 -> 0 < D2 -> N1 * D2 = N2 * D1 -> rne_div N1 D1 = rne_div N2 D2.
Proof.
  intros H1 H2 E.
  pose proof (Z.div_mod N1 D1 ltac:(lia)) as E1.
  pose proof (Z.mod_pos_bound N1 D1 H1) as B1.
  assert (Hq : N2 / D2 = N1 / D1).
  { symmetry. apply Z.div_unique_pos with (r := N2 - D2 * (N1 / D1)); [|lia].
    split; nia. }
  assert (Hr : D1 * (N2 mod D2) = (N1 mod D1) * D2).
  { pose proof (Z.div_mod N2 D2 ltac:(lia)) as E2. rewrite Hq in E2. nia. }
  unfold rne_div. rewrite Hq.
  replace (2 * (N2 mod D2) ?= D2) with (2 * (N1 mod D1) ?= D1); [reflexivity|].
  destruct (Z.compare_spec (2 * (N1 mod D1)) D1);
    symmetry; [apply Z.compare_eq_iff | apply Z.compare_lt_iff | apply Z.compare_gt_iff];
    nia.
Qed.

Lemma rne_div_mono (N1 D1 N2 D2 : Z) :
  0 < D1 -> 0 < D2 -> N1 * D2 <= N2 * D1 -> rne_div N1 D1 <= rne_div N2 D2.
Proof.
  intros H1 H2 Hle.
  destruct (Z.eq_dec (N1 * D2) (N2 * D1)) as [E|Hne].
  - rewrite (rne_div_eq N1 D1 N2 D2) by assumption. lia.
  - pose proof (rne_div_near N1 D1 H1) as [L1 _].
    pose proof (rne_div_near N2 D2 H2) as [_ U2].
    destruct (Z_lt_le_dec (rne_div N2 D2) (rne_div N1 D1)) as [Hlt|]; [|assumption].
    exfalso.
    assert (A : D1 * D2 * (2 * rne_div N2 D2 + 1) <= D2 * (D1 * (2 * rne_div N1 D1 - 1))) by nia.
    assert (B : D2 * (D1 * (2 * rne_div N1 D1 - 1)) <= D2 * (2 * N1)) by nia.
    assert (C : D1 * (2 * N2) <= D1 * (D2 * (2 * rne_div N2 D2 + 1))) by nia.
    nia.
Qed.

Lemma rne_scaled_mono (N1 D1 E1 N2 D2 E2 : Z) :
  0 < D1 -> 0 < D2 -> 0 <= E1 -> 0 <= E2 ->
  2 ^ 52 * D1 <= N1 <= 2 ^ 53 * D1 ->
  2 ^ 52 * D2 <= N2 <= 2 ^ 53 * D2 ->
  N1 * 2 ^ E1 * D2 <= N2 * 2 ^ E2 * D1 ->
  rne_div N1 D1 * 2 ^ E1 <= rne_div N2 D2 * 2 ^ E2.
Proof.
  intros HD1 HD2 HE1 HE2 HN1 HN2 Hle.
  assert (R1 : 2 ^ 52 <= rne_div N1 D1 <= 2 ^ 53) by (apply rne_div_range; lia).
  assert (R2 : 2 ^ 52 <= rne_div N2 D2 <= 2 ^ 53) by (apply rne_div_range; lia).
  change (2 ^ 52) with 4503599627370496 in *.
  change (2 ^ 53) with 9007199254740992 in *.
  destruct (Z.lt_trichotomy E1 E2) as [Hlt | [-> | Hgt]].
  - replace E2 with (E1 + (E2 - E1)) by lia.
    rewrite Z.pow_add_r by lia.
    assert (T : 0 < 2 ^ E1) by (apply Z.pow_pos_nonneg; lia).
    assert (C : 2 <= 2 ^ (E2 - E1)).
    { change 2 with (2 ^ 1) at 1. apply Z.pow_le_mono_r; lia. }
    set (c := 2 ^ (E2 - E1)) in *. set (t := 2 ^ E1) in *.
    assert (A : rne_div N1 D1 * t <= 9007199254740992 * t) by nia.
    assert (B : 4503599627370496 * (t * c) <= rne_div N2 D2 * (t * c)) by nia.
    assert (C' : t * 2 <= t * c) by nia.
    lia.
  - assert (T : 0 < 2 ^ E2) by (apply Z.pow_pos_nonneg; lia).
    assert (N1 * D2 <= N2 * D1) by nia.
    pose proof (rne_div_mono N1 D1 N2 D2 HD1 HD2 H). nia.
  - replace E1 with (E2 + (E1 - E2)) in * by lia.
    rewrite Z.pow_add_r in * by lia.
    assert (T : 0 < 2 ^ E2) by (apply Z.pow_pos_nonneg; lia).
    assert (C : 2 <= 2 ^ (E1 - E2)).
    { change 2 with (2 ^ 1) at 1. apply Z.pow_le_mono_r; lia. }
    set (c := 2 ^ (E1 - E2)) in *.
    assert (H1 : N1 * c * D2 <= N2 * D1) by nia.
    assert (H2 : 4503599627370496 * D1 * D2 * c <= N1 * c * D2) by nia.
    assert (H3 : N2 * D1 <= 9007199254740992 * D2 * D1) by nia.
    assert (Hc : c = 2) by nia.
    rewrite Hc in *.
    assert (EN1 : N1 = 4503599627370496 * D1) by nia.
    assert (EN2 : N2 = 9007199254740992 * D2) by nia.
    rewrite EN1, EN2, !rne_div_exact by lia. lia.
Qed.

(** ** Binary64: binary_round_aux *)

Lemma fexp_normal (k : Z) : emin <= k - 53 -> fexp prec emax k = k - 53.
Proof. unfold fexp, SpecFloat.emin, prec, emax, emin. lia. Qed.

Lemma shr_fexp_normal (m e : Z) (l : location) :
  2 ^ 52 <= m < 2 ^ 53 -> emin <= e ->
  shr_fexp prec emax m e l = (shr_record_of_loc m l, e).
Proof.
  intros Hm He. unfold shr_fexp.
  rewrite (Zdigits2_unique m 53) by (change (53 - 1) with 52; lia).
  rewrite fexp_normal by lia.
  replace (53 + e - 53 - e) with 0 by lia. reflexivity.
Qed.

Lemma shr_fexp_shift (m e : Z) :
  0 < m -> 53 < Zdigits2 m -> emin <= Zdigits2 m + e - 53 ->
  let n := Zdigits2 m - 53 in
  shr_fexp prec emax m e loc_Exact =
  ({| shr_m := m / 2 ^ n;
      shr_r := Z.odd (m / 2 ^ (n - 1));
      shr_s := negb (m mod 2 ^ (n - 1) =? 0) |}, e + n).
Proof.
  intros Hm Hd He n. unfold shr_fexp.
  rewrite fexp_normal by lia.
  replace (Zdigits2 m + e - 53 - e) with n by (unfold n; lia).
  cbn [shr_record_of_loc]. apply shr_exact_spec; unfold n; lia.
Qed.

Lemma shr_m_of_loc (m : Z) (l : location) : shr_m (shr_record_of_loc m l) = m.
Proof. destruct l as [|[]]; reflexivity. Qed.

Lemma loc_of_shr_of_loc (m : Z) (l : location) :
  loc_of_shr_record (shr_record_of_loc m l) = l.
Proof. destruct l as [|[]]; reflexivity. Qed.

(** Second half of [binary_round_aux]: a rounded mantissa in [2^52, 2^53]
    at an exponent in range gives the finite double [finite_of]. *)
Lemma round_finish (s : bool) (q e : Z) :
  2 ^ 52 <= q <= 2 ^ 53 -> emin <= e -> e + 1 <= emax - prec ->
  (let '(mrs, e') := shr_fexp prec emax q e loc_Exact in
   match shr_m mrs with
   | Z0 => S754_zero s
   | Zpos m => if e' <=? emax - prec then S754_finite s m e' else S754_infinity s
   | Zneg _ => S754_nan
   end) = finite_of s q e.
Proof.
  intros Hq He Hmax. unfold finite_of.
  destruct (Z.eqb_spec q (2 ^ 53)) as [-> | Hne].
  - rewrite shr_fexp_shift; [ | reflexivity | reflexivity | ].
    + cbn [shr_m]. change (Zdigits2 (2 ^ 53) - 53) with 1.
      change (2 ^ 53 / 2 ^ 1) with (Z.pos (Z.to_pos (2 ^ 52))).
      cbv iota beta.
      replace (e + 1 <=? emax - prec) with true; [reflexivity|].
      symmetry; apply Z.leb_le; lia.
    + change (Zdigits2 (2 ^ 53)) with 54. lia.
  - rewrite shr_fexp_normal by lia. cbn [shr_record_of_loc shr_m].
    destruct q as [|p|p]; try lia.
    replace (e <=? emax - prec) with true; [reflexivity|].
    symmetry; apply Z.leb_le; lia.
Qed.

(** Rounding a 53-bit mantissa with a location. *)
Lemma binary_round_aux_normal (s : bool) (m e : Z) (l : location) :
  2 ^ 52 <= m < 2 ^ 53 -> emin <= e -> e + 1 <= emax - prec ->
  binary_round_aux prec emax s m e l = finite_of s (round_nearest_even m l) e.
Proof.
  intros Hm He Hmax. unfold binary_round_aux.
  rewrite shr_fexp_normal by assumption.
  rewrite shr_m_of_loc, loc_of_shr_of_loc.
  apply round_finish; try assumption.
  destruct l as [|[]]; cbn [round_nearest_even]; try lia.
  destruct (Z.even m); lia.
Qed.

(** Rounding an exact mantissa of more than 53 bits. *)
Lemma binary_round_aux_shift (s : bool) (m e : Z) :
  0 < m -> 53 < Zdigits2 m ->
  let n := Zdigits2 m - 53 in
  emin <= e + n -> e + n + 1 <= emax - prec ->
  binary_round_aux prec emax s m e loc_Exact =
  finite_of s (rne_div m (2 ^ n)) (e + n).
Proof.
  intros Hm Hd n He Hmax. unfold binary_round_aux.
  rewrite shr_fexp_shift by (try assumption; unfold n in He; lia).
  fold n. cbn [shr_m].
  replace n with ((n - 1) + 1) at 1 2 7 by lia.
  rewrite round_shr_spec by (unfold n; lia).
  replace (n - 1 + 1) with n by lia.
  apply round_finish; try assumption.
  pose proof (Zdigits2_bounds m Hm) as [Hlo Hhi].
  assert (Hn : 0 < n) by (unfold n; lia).
  assert (Hp : 0 < 2 ^ n) by (apply Z.pow_pos_nonneg; lia).
  apply rne_div_range; [exact Hp|].
  replace (Zdigits2 m - 1) with (52 + n) in Hlo by (unfold n; lia).
  replace (Zdigits2 m) with (53 + n) in Hhi by (unfold n; lia).
  rewrite Z.pow_add_r in Hlo, Hhi by lia. lia.
Qed.

(** ** Binary64: operations *)

Lemma pos_iter_xO (p k : positive) :
  Z.pos (Pos.iter xO p k) = Z.pos p * 2 ^ Z.pos k.
Proof.
  induction k as [|k IH] using Pos.peano_ind.
  - cbn [Pos.iter]. lia.
  - rewrite Pos.iter_succ, Pos2Z.inj_xO, IH, Pos2Z.inj_succ, Z.pow_succ_r by lia.
    lia.
Qed.

Lemma finite_of_small (s : bool) (q e : Z) :
  q < 2 ^ 53 -> finite_of s q e = S754_finite s (Z.to_pos q) e.
Proof.
  intros Hq. unfold finite_of.
  destruct (Z.eqb_spec q (2 ^ 53)); [lia | reflexivity].
Qed.

Lemma mant_range (z : Z) :
  0 < z < 2 ^ 53 -> 2 ^ 52 <= mant z < 2 ^ 53.
Proof.
  intros Hz. unfold mant.
  pose proof (Zdigits2_bounds z ltac:(lia)) as [Hlo Hhi].
  assert (Hd : 0 < Zdigits2 z <= 53).
  { split.
    - rewrite Zdigits2_log2 by lia. pose proof (Z.log2_nonneg z). lia.
    - destruct (Z_lt_le_dec 53 (Zdigits2 z)) as [Hgt|]; [|lia].
      assert (2 ^ 53 <= 2 ^ (Zdigits2 z - 1)) by (apply Z.pow_le_mono_r; lia).
      lia. }
  assert (Hp : 0 < 2 ^ (53 - Zdigits2 z)) by (apply Z.pow_pos_nonneg; lia).
  replace (2 ^ 52) with (2 ^ (Zdigits2 z - 1) * 2 ^ (53 - Zdigits2 z)).
  2:{ rewrite <- Z.pow_add_r by lia. f_equal. lia. }
  replace (2 ^ 53) with (2 ^ Zdigits2 z * 2 ^ (53 - Zdigits2 z)).
  2:{ rewrite <- Z.pow_add_r by lia. f_equal. lia. }
  nia.
Qed.

Lemma expo_range (z : Z) (d : Z) :
  0 < z < 2 ^ d -> 0 < d -> - 52 <= expo z <= d - 53.
Proof.
  intros Hz Hd. unfold expo.
  pose proof (Zdigits2_bounds z ltac:(lia)) as [Hlo Hhi].
  split.
  - rewrite Zdigits2_log2 by lia. pose proof (Z.log2_nonneg z). lia.
  - destruct (Z_lt_le_dec d (Zdigits2 z)) as [Hgt|]; [|lia].
    assert (2 ^ d <= 2 ^ (Zdigits2 z - 1)) by (apply Z.pow_le_mono_r; lia).
    lia.
Qed.

Lemma double_of_Z_pos (z : Z) :
  0 < z < 2 ^ 53 ->
  double_of_Z z = S754_finite false (Z.to_pos (mant z)) (expo z).
Proof.
  intros Hz.
  pose proof (mant_range z Hz) as Hm.
  pose proof (expo_range z 53 Hz ltac:(lia)) as He.
  destruct z as [|p|p]; try lia.
  unfold double_of_Z, binary_normalize, binary_round.
  change (Z.pos (digits2_pos p)) with (Zdigits2 (Z.pos p)).
  unfold expo in He.
  rewrite Z.add_0_r.
  unfold fexp, SpecFloat.emin, prec, emax.
  rewrite Z.max_l by lia.
  assert (E : shl_align p 0 (Zdigits2 (Z.pos p) - 53) =
              (Z.to_pos (mant (Z.pos p)), expo (Z.pos p))).
  { unfold shl_align, mant, expo.
    destruct (Zdigits2 (Z.pos p) - 53 - 0) as [|k|k] eqn:Ek; try lia.
    - replace (53 - Zdigits2 (Z.pos p)) with 0 by lia.
      rewrite Z.pow_0_r, Z.mul_1_r. cbn [Z.to_pos]. f_equal. lia.
    - f_equal. apply Pos2Z.inj. rewrite pos_iter_xO.
      replace (53 - Zdigits2 (Z.pos p)) with (Z.pos k) by lia.
      rewrite Z2Pos.id; [reflexivity|].
      assert (0 < 2 ^ Z.pos k) by (apply Z.pow_pos_nonneg; lia). lia. }
  rewrite E.
  rewrite Z2Pos.id by lia.
  change (binary_round_aux 53 1024) with (binary_round_aux prec emax).
  rewrite binary_round_aux_normal; unfold expo, emin, emax, prec; try lia.
  cbn [round_nearest_even]. apply finite_of_small. lia.
Qed.

Lemma round_new_location (N D : Z) :
  0 < D ->
  round_nearest_even (N / D) (new_location D (N mod D)) = rne_div N D.
Proof.
  intros HD. pose proof (Z.mod_pos_bound N D HD) as Hr.
  unfold rne_div, new_location, new_location_even, new_location_odd.
  destruct (Z.even D) eqn:Ev; cbv beta;
    destruct (Z.eqb_spec (N mod D) 0) as [E0|E0]; cbn [round_nearest_even].
  - rewrite E0. destruct (Z.compare_spec (2 * 0) D); lia.
  - reflexivity.
  - rewrite E0. destruct (Z.compare_spec (2 * 0) D); lia.
  - assert (Hodd : Z.odd D = true) by (rewrite <- Z.negb_even, Ev; reflexivity).
    apply Z.odd_spec in Hodd. destruct Hodd as [k Hk].
    destruct (Z.compare_spec (2 * (N mod D) + 1) D) as [E|E|E];
      destruct (Z.compare_spec (2 * (N mod D)) D) as [E'|E'|E'];
      try lia; reflexivity.
Qed.

Lemma div_core_normal (mx ex my ey : Z) :
  2 ^ 52 <= mx < 2 ^ 53 -> 2 ^ 52 <= my < 2 ^ 53 ->
  emin <= ex - ey - 53 ->
  SFdiv_core_binary prec emax mx ex my ey =
  (mx * 2 ^ 53 / my, ex - ey - 53, new_location my (mx * 2 ^ 53 mod my)).
Proof.
  intros Hx Hy He. unfold SFdiv_core_binary.
  rewrite (Zdigits2_unique mx 53), (Zdigits2_unique my 53)
    by (change (53 - 1) with 52; lia).
  replace (53 + ex - (53 + ey)) with (ex - ey) by lia.
  rewrite fexp_normal by lia.
  rewrite Z.min_l by lia.
  replace (ex - ey - (ex - ey - 53)) with 53 by lia.
  rewrite Z.shiftl_mul_pow2 by lia.
  unfold Z.div, Z.modulo.
  destruct (Z.div_eucl (mx * 2 ^ 53) my) as [q r]. reflexivity.
Qed.

Lemma div_pow2_range (my : Z) :
  2 ^ 52 < my < 2 ^ 53 -> 2 ^ 52 <= 2 ^ 105 / my < 2 ^ 53.
Proof.
  intros Hy. split.
  - apply Z.div_le_lower_bound; [lia|].
    change (2 ^ 105) with (2 ^ 53 * 2 ^ 52). nia.
  - apply Z.div_lt_upper_bound; [lia|].
    change (2 ^ 105) with (2 ^ 52 * 2 ^ 53). nia.
Qed.

(** [1.0 / y] for a positive normal double [y]. *)
Lemma ddiv_one_eval (my : positive) (ey : Z) :
  2 ^ 52 <= Z.pos my < 2 ^ 53 -> - 100 <= ey <= 100 ->
  ddiv (double_of_Z 1) (S754_finite false my ey) =
  finite_of false (rne_div (2 ^ 105) (Z.pos my)) (- 105 - ey).
Proof.
  intros Hy He.
  change (double_of_Z 1) with (S754_finite false (Z.to_pos (2 ^ 52)) (- 52)).
  unfold ddiv, SFdiv.
  rewrite div_core_normal
    by (unfold emin; first [lia | vm_compute; split; congruence]).
  change (Z.pos (Z.to_pos (2 ^ 52)) * 2 ^ 53) with (2 ^ 105).
  replace (- 52 - ey - 53) with (- 105 - ey) by lia.
  cbn [xorb].
  destruct (Z.eq_dec (Z.pos my) (2 ^ 52)) as [E|Hne].
  - rewrite E.
    change (2 ^ 105 / 2 ^ 52) with (2 ^ 53).
    change (new_location (2 ^ 52) (2 ^ 105 mod 2 ^ 52)) with loc_Exact.
    change (rne_div (2 ^ 105) (2 ^ 52)) with (2 ^ 53).
    rewrite binary_round_aux_shift;
      change (Zdigits2 (2 ^ 53) - 53) with 1; unfold emin, emax, prec; try lia;
      [|reflexivity].
    change (rne_div (2 ^ 53) (2 ^ 1)) with (2 ^ 52).
    reflexivity.
  - pose proof (div_pow2_range (Z.pos my) ltac:(lia)) as Hq.
    rewrite binary_round_aux_normal; unfold emin, emax, prec; try lia.
    rewrite round_new_location by lia. reflexivity.
Qed.

(** The product of two positive normal doubles. *)
Lemma dmul_eval (ma : positive) (ea : Z) (ml : positive) (el : Z) :
  2 ^ 52 <= Z.pos ma < 2 ^ 53 -> 2 ^ 52 <= Z.pos ml < 2 ^ 53 ->
  - 400 <= ea + el <= 400 ->
  let n := Zdigits2 (Z.pos ma * Z.pos ml) - 53 in
  52 <= n <= 53 /\
  2 ^ 52 * 2 ^ n <= Z.pos ma * Z.pos ml < 2 ^ 53 * 2 ^ n /\
  dmul (S754_finite false ma ea) (S754_finite false ml el) =
  finite_of false (rne_div (Z.pos ma * Z.pos ml) (2 ^ n)) (ea + el + n).
Proof.
  intros Ha Hl He n.
  assert (HP : 2 ^ 104 <= Z.pos ma * Z.pos ml < 2 ^ 106).
  { change (2 ^ 104) with (2 ^ 52 * 2 ^ 52).
    change (2 ^ 106) with (2 ^ 53 * 2 ^ 53). nia. }
  pose proof (Zdigits2_bounds (Z.pos ma * Z.pos ml) ltac:(lia)) as [Hlo Hhi].
  assert (Hn : 52 <= n <= 53).
  { unfold n. split.
    - destruct (Z_lt_le_dec (Zdigits2 (Z.pos ma * Z.pos ml)) 105) as [Hlt|]; [|lia].
      assert (2 ^ Zdigits2 (Z.pos ma * Z.pos ml) <= 2 ^ 104)
        by (apply Z.pow_le_mono_r; lia).
      lia.
    - destruct (Z_lt_le_dec 106 (Zdigits2 (Z.pos ma * Z.pos ml))) as [Hgt|]; [|lia].
      assert (2 ^ 106 <= 2 ^ (Zdigits2 (Z.pos ma * Z.pos ml) - 1))
        by (apply Z.pow_le_mono_r; lia).
      lia. }
  split; [exact Hn|]. split.
  - replace (Zdigits2 (Z.pos ma * Z.pos ml) - 1) with (52 + n) in Hlo by (unfold n; lia).
    replace (Zdigits2 (Z.pos ma * Z.pos ml)) with (53 + n) in Hhi at 1 by (unfold n; lia).
    rewrite Z.pow_add_r in Hlo, Hhi by lia. lia.
  - unfold dmul, SFmul. cbn [xorb]. rewrite Pos2Z.inj_mul.
    apply binary_round_aux_shift; fold n; unfold emin, emax, prec; lia.
Qed.

(** [x / 2.0] for a positive normal double [x]. *)
Lemma ddiv_two_eval (mp : positive) (ep : Z) :
  2 ^ 52 <= Z.pos mp < 2 ^ 53 -> - 100 <= ep <= 100 ->
  ddiv (S754_finite false mp ep) (double_of_Z 2) = S754_finite false mp (ep - 1).
Proof.
  intros Hp He.
  change (double_of_Z 2) with (S754_finite false (Z.to_pos (2 ^ 52)) (- 51)).
  unfold ddiv, SFdiv.
  rewrite div_core_normal
    by (unfold emin; first [lia | vm_compute; split; congruence]).
  change (Z.pos (Z.to_pos (2 ^ 52))) with (2 ^ 52).
  change (2 ^ 53) with (2 * 2 ^ 52).
  rewrite Z.mul_assoc, Z.div_mul, Z_mod_mult by lia.
  change (new_location (2 ^ 52) 0) with loc_Exact.
  cbn [xorb].
  assert (Hd : Zdigits2 (Z.pos mp * 2) = 54).
  { apply Zdigits2_unique; [|lia].
    change (2 ^ (54 - 1)) with (2 ^ 52 * 2). change (2 ^ 54) with (2 ^ 53 * 2). lia. }
  rewrite binary_round_aux_shift; rewrite ?Hd; unfold emin, emax, prec; try lia.
  change (54 - 53) with 1. change (2 ^ 1) with 2.
  rewrite rne_div_exact by lia.
  rewrite finite_of_small by lia.
  f_equal. lia.
Qed.

(** ** Binary64: values *)

Lemma pos_normal_weaken (lo hi lo' hi' : Z) (x : spec_float) :
  pos_normal lo hi x -> lo' <= lo -> hi <= hi' -> pos_normal lo' hi' x.
Proof.
  intros (m & e & -> & Hm & He) Hlo Hhi. exists m, e. repeat split; lia.
Qed.

Lemma finite_of_normal (q e : Z) :
  2 ^ 52 <= q <= 2 ^ 53 -> pos_normal e (e + 1) (finite_of false q e).
Proof.
  intros Hq. unfold finite_of.
  destruct (Z.eqb_spec q (2 ^ 53)) as [-> | Hne].
  - eexists _, _. split; [reflexivity|]. split; [vm_compute; split; congruence | lia].
  - exists (Z.to_pos q), e. rewrite Z2Pos.id by lia. repeat split; lia.
Qed.

Lemma scaled_finite_of (q e : Z) :
  2 ^ 52 <= q <= 2 ^ 53 -> 0 <= e + 1074 ->
  scaled (finite_of false q e) = q * 2 ^ (e + 1074).
Proof.
  intros Hq He. unfold finite_of.
  destruct (Z.eqb_spec q (2 ^ 53)) as [-> | Hne]; cbn [scaled cond_Zopp].
  - replace (e + 1 + 1074) with (Z.succ (e + 1074)) by lia.
    rewrite Z.pow_succ_r by lia.
    change (Z.pos (Z.to_pos (2 ^ 52))) with (2 ^ 52).
    change (2 ^ 53) with (2 ^ 52 * 2). lia.
  - rewrite Z2Pos.id by lia. reflexivity.
Qed.

Lemma double_of_Z_normal (z d : Z) :
  0 < z < 2 ^ d -> 0 < d <= 53 -> pos_normal (- 52) (d - 53) (double_of_Z z).
Proof.
  intros Hz Hd.
  assert (Hz' : 0 < z < 2 ^ 53).
  { assert (2 ^ d <= 2 ^ 53) by (apply Z.pow_le_mono_r; lia). lia. }
  rewrite double_of_Z_pos by exact Hz'.
  pose proof (mant_range z Hz') as Hm.
  exists (Z.to_pos (mant z)), (expo z). rewrite Z2Pos.id by lia.
  split; [reflexivity|]. split; [exact Hm|]. apply expo_range; lia.
Qed.

Lemma mant_expo (z : Z) :
  0 < z < 2 ^ 53 -> mant z = z * 2 ^ (- expo z) /\ 0 <= - expo z.
Proof.
  intros Hz. pose proof (expo_range z 53 Hz ltac:(lia)) as He.
  unfold mant. unfold expo in *. split; [f_equal; f_equal; lia | lia].
Qed.

Lemma scaled_double_of_Z (z : Z) :
  0 < z < 2 ^ 53 -> scaled (double_of_Z z) = z * 2 ^ 1074.
Proof.
  intros Hz. rewrite double_of_Z_pos by exact Hz.
  pose proof (mant_range z Hz) as Hm.
  destruct (mant_expo z Hz) as [E He].
  pose proof (expo_range z 53 Hz ltac:(lia)) as He'.
  cbn [scaled cond_Zopp]. rewrite Z2Pos.id by lia.
  rewrite E, <- Z.mul_assoc, <- Z.pow_add_r by lia.
  f_equal. f_equal. lia.
Qed.

(** ** Binary64: the reciprocal *)

Lemma recip_eval (f : Z) :
  0 < f < 2 ^ 32 ->
  ddiv (double_of_Z 1) (double_of_Z f) =
  finite_of false (rne_div (2 ^ 105) (mant f)) (- 105 - expo f).
Proof.
  intros Hf.
  assert (Hf' : 0 < f < 2 ^ 53) by (change (2 ^ 32) with 4294967296 in Hf;
                                    change (2 ^ 53) with 9007199254740992; lia).
  pose proof (mant_range f Hf') as Hm.
  pose proof (expo_range f 53 Hf' ltac:(lia)) as He.
  rewrite (double_of_Z_pos f Hf').
  rewrite ddiv_one_eval by (rewrite ?Z2Pos.id; lia).
  rewrite Z2Pos.id by lia. reflexivity.
Qed.

Lemma recip_mantissa_range (f : Z) :
  0 < f < 2 ^ 53 -> 2 ^ 52 * mant f <= 2 ^ 105 <= 2 ^ 53 * mant f.
Proof.
  intros Hf. pose proof (mant_range f Hf) as Hm.
  change (2 ^ 105) with (2 ^ 52 * 2 ^ 53) at 1.
  change (2 ^ 105) with (2 ^ 53 * 2 ^ 52). lia.
Qed.

Lemma recip_mono (f1 f2 : Z) :
  0 < f1 <= f2 -> f2 < 2 ^ 32 ->
  scaled (ddiv (double_of_Z 1) (double_of_Z f2)) <=
  scaled (ddiv (double_of_Z 1) (double_of_Z f1)).
Proof.
  intros Hf1 Hf2.
  assert (B : 2 ^ 32 < 2 ^ 53) by reflexivity.
  assert (H1 : 0 < f1 < 2 ^ 53) by lia.
  assert (H2 : 0 < f2 < 2 ^ 53) by lia.
  rewrite !recip_eval by lia.
  pose proof (recip_mantissa_range f1 H1) as R1.
  pose proof (recip_mantissa_range f2 H2) as R2.
  pose proof (mant_range f1 H1) as M1.
  pose proof (mant_range f2 H2) as M2.
  pose proof (expo_range f1 53 H1 ltac:(lia)) as E1.
  pose proof (expo_range f2 53 H2 ltac:(lia)) as E2.
  rewrite !scaled_finite_of by (try lia; apply rne_div_range; lia).
  apply rne_scaled_mono; try lia.
  destruct (mant_expo f1 H1) as [-> P1].
  destruct (mant_expo f2 H2) as [-> P2].
  replace (- 105 - expo f2 + 1074) with (969 + - expo f2) by lia.
  replace (- 105 - expo f1 + 1074) with (969 + - expo f1) by lia.
  rewrite !Z.pow_add_r by lia.
  assert (W1 : 0 < 2 ^ (- expo f1)) by (apply Z.pow_pos_nonneg; lia).
  assert (W2 : 0 < 2 ^ (- expo f2)) by (apply Z.pow_pos_nonneg; lia).
  set (w1 := 2 ^ (- expo f1)) in *. set (w2 := 2 ^ (- expo f2)) in *.
  assert (C : 0 < 2 ^ 105 * 2 ^ 969) by reflexivity.
  set (c := 2 ^ 105 * 2 ^ 969) in *.
  replace (2 ^ 105 * (2 ^ 969 * w2) * (f1 * w1)) with (c * (w1 * w2) * f1)
    by (unfold c; ring).
  replace (2 ^ 105 * (2 ^ 969 * w1) * (f2 * w2)) with (c * (w1 * w2) * f2)
    by (unfold c; ring).
  apply Z.mul_le_mono_nonneg_l; [|lia]. nia.
Qed.

(** ** Binary64: the product *)

Lemma dmul_normal (lo hi lo' hi' : Z) (x y : spec_float) :
  pos_normal lo hi x -> pos_normal lo' hi' y ->
  - 200 <= lo -> hi <= 200 -> - 200 <= lo' -> hi' <= 200 ->
  pos_normal (lo + lo' + 52) (hi + hi' + 54) (dmul x y).
Proof.
  intros (ma & ea & -> & Ha & Ea) (ml & el & -> & Hl & El) B1 B2 B3 B4.
  destruct (dmul_eval ma ea ml el Ha Hl ltac:(lia)) as (Hn & HP & ->).
  set (n := Zdigits2 (Z.pos ma * Z.pos ml) - 53) in *.
  assert (Hp : 0 < 2 ^ n) by (apply Z.pow_pos_nonneg; lia).
  eapply pos_normal_weaken; [apply finite_of_normal | lia | lia].
  apply rne_div_range; [exact Hp | lia].
Qed.

Lemma dmul_scaled (ma : positive) (ea : Z) (ml : positive) (el : Z) :
  2 ^ 52 <= Z.pos ma < 2 ^ 53 -> 2 ^ 52 <= Z.pos ml < 2 ^ 53 ->
  - 200 <= ea <= 200 -> - 200 <= el <= 200 ->
  let n := Zdigits2 (Z.pos ma * Z.pos ml) - 53 in
  52 <= n <= 53 /\
  2 ^ 52 * 2 ^ n <= Z.pos ma * Z.pos ml < 2 ^ 53 * 2 ^ n /\
  scaled (dmul (S754_finite false ma ea) (S754_finite false ml el)) =
  rne_div (Z.pos ma * Z.pos ml) (2 ^ n) * 2 ^ (ea + el + n + 1074).
Proof.
  intros Ha Hl Ea El n.
  destruct (dmul_eval ma ea ml el Ha Hl ltac:(lia)) as (Hn & HP & ->).
  fold n in Hn, HP |- *.
  assert (Hp : 0 < 2 ^ n) by (apply Z.pow_pos_nonneg; lia).
  split; [exact Hn|]. split; [exact HP|].
  apply scaled_finite_of; [|lia].
  apply rne_div_range; [exact Hp | lia].
Qed.

Lemma dmul_mono (x1 x2 y : spec_float) :
  pos_normal (- 200) 200 x1 -> pos_normal (- 200) 200 x2 ->
  pos_normal (- 52) 200 y ->
  scaled x1 <= scaled x2 ->
  scaled (dmul x1 y) <= scaled (dmul x2 y).
Proof.
  intros (m1 & e1 & -> & H1 & E1) (m2 & e2 & -> & H2 & E2)
         (ml & el & -> & Hl & El) Hle.
  cbn [scaled cond_Zopp] in Hle.
  destruct (dmul_scaled m1 e1 ml el H1 Hl ltac:(lia) ltac:(lia)) as (Hn1 & HP1 & ->).
  destruct (dmul_scaled m2 e2 ml el H2 Hl ltac:(lia) ltac:(lia)) as (Hn2 & HP2 & ->).
  set (n1 := Zdigits2 (Z.pos m1 * Z.pos ml) - 53) in *.
  set (n2 := Zdigits2 (Z.pos m2 * Z.pos ml) - 53) in *.
  assert (P1 : 0 < 2 ^ n1) by (apply Z.pow_pos_nonneg; lia).
  assert (P2 : 0 < 2 ^ n2) by (apply Z.pow_pos_nonneg; lia).
  assert (A1 : 0 < 2 ^ (e1 + 1074)) by (apply Z.pow_pos_nonneg; lia).
  assert (A2 : 0 < 2 ^ (e2 + 1074)) by (apply Z.pow_pos_nonneg; lia).
  assert (Bl : 0 < 2 ^ (el + 52)) by (apply Z.pow_pos_nonneg; lia).
  assert (C1 : 0 < 2 ^ (n1 - 52)) by (apply Z.pow_pos_nonneg; lia).
  assert (C2 : 0 < 2 ^ (n2 - 52)) by (apply Z.pow_pos_nonneg; lia).
  assert (Q1 : 2 ^ (e1 + el + n1 + 1074) =
               2 ^ (e1 + 1074) * 2 ^ (el + 52) * 2 ^ (n1 - 52)).
  { rewrite <- !Z.pow_add_r by lia. f_equal. lia. }
  assert (Q2 : 2 ^ (e2 + el + n2 + 1074) =
               2 ^ (e2 + 1074) * 2 ^ (el + 52) * 2 ^ (n2 - 52)).
  { rewrite <- !Z.pow_add_r by lia. f_equal. lia. }
  assert (W1 : 2 ^ n1 = 2 ^ 52 * 2 ^ (n1 - 52)).
  { rewrite <- Z.pow_add_r by lia. f_equal. lia. }
  assert (W2 : 2 ^ n2 = 2 ^ 52 * 2 ^ (n2 - 52)).
  { rewrite <- Z.pow_add_r by lia. f_equal. lia. }
  apply rne_scaled_mono; try lia.
  rewrite Q1, Q2, W1, W2.
  set (a1 := 2 ^ (e1 + 1074)) in *. set (a2 := 2 ^ (e2 + 1074)) in *.
  set (bl := 2 ^ (el + 52)) in *.
  set (c1 := 2 ^ (n1 - 52)) in *. set (c2 := 2 ^ (n2 - 52)) in *.
  assert (T : 0 < 2 ^ 52) by reflexivity. set (t := 2 ^ 52) in *.
  replace (Z.pos m1 * Z.pos ml * (a1 * bl * c1) * (t * c2))
    with ((Z.pos ml * bl * c1 * c2 * t) * (Z.pos m1 * a1)) by ring.
  replace (Z.pos m2 * Z.pos ml * (a2 * bl * c2) * (t * c1))
    with ((Z.pos ml * bl * c1 * c2 * t) * (Z.pos m2 * a2)) by ring.
  apply Z.mul_le_mono_nonneg_l; [|exact Hle].
  repeat apply Z.mul_nonneg_nonneg; lia.
Qed.

(** Multiplying by 1.0 changes nothing. *)
Lemma dmul_one (y : spec_float) :
  pos_normal (- 200) 200 y -> dmul (double_of_Z 1) y = y.
Proof.
  intros (ml & el & -> & Hl & El).
  change (double_of_Z 1) with (S754_finite false (Z.to_pos (2 ^ 52)) (- 52)).
  assert (H52 : 2 ^ 52 <= Z.pos (Z.to_pos (2 ^ 52)) < 2 ^ 53)
    by (vm_compute; split; congruence).
  destruct (dmul_eval (Z.to_pos (2 ^ 52)) (- 52) ml el H52 Hl ltac:(lia))
    as (_ & _ & ->).
  change (Z.pos (Z.to_pos (2 ^ 52))) with (2 ^ 52).
  assert (Hd : Zdigits2 (2 ^ 52 * Z.pos ml) = 105).
  { apply Zdigits2_unique; [|lia].
    change (2 ^ (105 - 1)) with (2 ^ 52 * 2 ^ 52).
    change (2 ^ 105) with (2 ^ 52 * 2 ^ 53). lia. }
  rewrite Hd. change (105 - 53) with 52.
  rewrite (Z.mul_comm (2 ^ 52)), rne_div_exact by reflexivity.
  rewrite finite_of_small by lia.
  rewrite Pos2Z.id. f_equal. lia.
Qed.

(** ** Binary64: halving and truncation *)

Lemma half_eval (lo hi : Z) (x : spec_float) :
  pos_normal lo hi x -> - 100 <= lo -> hi <= 100 ->
  pos_normal (lo - 1) (hi - 1) (ddiv x (double_of_Z 2)) /\
  2 * scaled (ddiv x (double_of_Z 2)) = scaled x.
Proof.
  intros (m & e & -> & Hm & He) Hlo Hhi.
  rewrite ddiv_two_eval by lia. split.
  - exists m, (e - 1). repeat split; lia.
  - cbn [scaled cond_Zopp].
    replace (e + 1074) with (Z.succ (e - 1 + 1074)) by lia.
    rewrite Z.pow_succ_r by lia. lia.
Qed.

Lemma trunc_pos_normal (lo hi : Z) (x : spec_float) :
  pos_normal lo hi x -> - 1074 <= lo ->
  trunc_double x = Some (scaled x / 2 ^ 1074).
Proof.
  intros (m & e & -> & Hm & He) Hlo.
  cbn [trunc_double scaled cond_Zopp]. f_equal.
  destruct (Z.leb_spec 0 e) as [Hpos | Hneg].
  - rewrite Z.pow_add_r by lia. rewrite Z.mul_assoc, Z.div_mul; [reflexivity|].
    apply Z.pow_nonzero; lia.
  - replace 1074 with (- e + (e + 1074)) at 2 by lia.
    rewrite (Z.pow_add_r 2 (- e) (e + 1074)) by lia.
    rewrite Z.div_mul_cancel_r; [reflexivity | |];
      apply Z.pow_nonzero; lia.
Qed.

(** ** Binary64: the half period *)

Lemma recip_normal (f : Z) :
  0 < f < 2 ^ 32 ->
  pos_normal (- 84) (- 52) (ddiv (double_of_Z 1) (double_of_Z f)).
Proof.
  intros Hf.
  assert (B : 2 ^ 32 < 2 ^ 53) by reflexivity.
  assert (Hf' : 0 < f < 2 ^ 53) by lia.
  rewrite recip_eval by exact Hf.
  pose proof (recip_mantissa_range f Hf') as R.
  pose proof (mant_range f Hf') as M.
  pose proof (expo_range f 32 Hf ltac:(lia)) as E.
  eapply pos_normal_weaken; [apply finite_of_normal | lia | lia].
  apply rne_div_range; lia.
Qed.

Lemma recip_one : ddiv (double_of_Z 1) (double_of_Z 1) = double_of_Z 1.
Proof. vm_compute. reflexivity. Qed.

Section HalfPeriod.

Variable L : Z.
Hypothesis HL : 0 < L < 2 ^ 32.

Lemma L_double_normal : pos_normal (- 52) (- 21) (double_of_Z L).
Proof. apply (double_of_Z_normal L 32); [exact HL | lia]. Qed.

Lemma product_normal (f : Z) :
  0 < f < 2 ^ 32 ->
  pos_normal (- 84) (- 19)
    (dmul (ddiv (double_of_Z 1) (double_of_Z f)) (double_of_Z L)).
Proof.
  intros Hf.
  eapply pos_normal_weaken;
    [apply (dmul_normal (- 84) (- 52) (- 52) (- 21));
     [apply recip_normal; exact Hf | apply L_double_normal | lia..] | lia | lia].
Qed.

Lemma product_mono (f1 f2 : Z) :
  0 < f1 <= f2 -> f2 < 2 ^ 32 ->
  scaled (dmul (ddiv (double_of_Z 1) (double_of_Z f2)) (double_of_Z L)) <=
  scaled (dmul (ddiv (double_of_Z 1) (double_of_Z f1)) (double_of_Z L)).
Proof.
  intros H1 H2. apply dmul_mono.
  - eapply pos_normal_weaken; [apply recip_normal | |]; lia.
  - eapply pos_normal_weaken; [apply recip_normal | |]; lia.
  - eapply pos_normal_weaken; [apply L_double_normal | |]; lia.
  - apply recip_mono; assumption.
Qed.

Lemma half_period_normal (f : Z) :
  0 < f < 2 ^ 32 -> pos_normal (- 85) (- 20) (half_period L f).
Proof.
  intros Hf. unfold half_period.
  apply (half_eval (- 84) (- 19)); [apply product_normal; exact Hf | lia | lia].
Qed.

Lemma half_period_scaled (f : Z) :
  0 < f < 2 ^ 32 ->
  2 * scaled (half_period L f) =
  scaled (dmul (ddiv (double_of_Z 1) (double_of_Z f)) (double_of_Z L)).
Proof.
  intros Hf. unfold half_period.
  apply (half_eval (- 84) (- 19)); [apply product_normal; exact Hf | lia | lia].
Qed.

Lemma half_period_mono (f1 f2 : Z) :
  0 < f1 <= f2 -> f2 < 2 ^ 32 ->
  scaled (half_period L f2) <= scaled (half_period L f1).
Proof.
  intros H1 H2.
  pose proof (half_period_scaled f1 ltac:(lia)) as E1.
  pose proof (half_period_scaled f2 ltac:(lia)) as E2.
  pose proof (product_mono f1 f2 H1 H2). lia.
Qed.

Lemma half_period_one : scaled (half_period L 1) = L * 2 ^ 1073.
Proof.
  pose proof (half_period_scaled 1 ltac:(split; [lia | reflexivity])) as E.
  rewrite recip_one, dmul_one in E
    by (eapply pos_normal_weaken; [apply L_double_normal | |]; lia).
  assert (B : 2 ^ 32 < 2 ^ 53) by reflexivity.
  rewrite scaled_double_of_Z in E by lia.
  change (2 ^ 1074) with (2 * 2 ^ 1073) in E. lia.
Qed.

Lemma half_period_trunc (f : Z) :
  0 < f < 2 ^ 32 ->
  trunc_double (half_period L f) = Some (scaled (half_period L f) / 2 ^ 1074) /\
  0 <= scaled (half_period L f) / 2 ^ 1074 < 2 ^ 31.
Proof.
  intros Hf. split.
  - apply (trunc_pos_normal (- 85) (- 20)); [apply half_period_normal; exact Hf | lia].
  - pose proof (half_period_mono 1 f ltac:(lia) ltac:(lia)) as Hle.
    rewrite half_period_one in Hle.
    destruct (half_period_normal f Hf) as (m & e & E & Hm & He).
    assert (Hpos : 0 <= scaled (half_period L f)).
    { rewrite E. cbn [scaled cond_Zopp].
      assert (0 < 2 ^ (e + 1074)) by (apply Z.pow_pos_nonneg; lia). lia. }
    assert (T : 0 < 2 ^ 1074) by reflexivity.
    split; [apply Z.div_pos; lia|].
    apply Z.div_lt_upper_bound; [exact T|].
    change (2 ^ 1074) with (2 * 2 ^ 1073).
    assert (T' : 0 < 2 ^ 1073) by reflexivity.
    change (2 ^ 32) with (2 * 2 ^ 31) in HL.
    set (t := 2 ^ 1073) in *. nia.
Qed.

End HalfPeriod.

(** ** Binary64: rounding errors *)

(** The reciprocal is within one part in 2^53 of 1/f. *)
Lemma recip_error (f : Z) :
  0 < f < 2 ^ 32 ->
  let sa := scaled (ddiv (double_of_Z 1) (double_of_Z f)) in
  (2 ^ 53 - 1) * 2 ^ 1074 <= 2 ^ 53 * (sa * f) <= (2 ^ 53 + 1) * 2 ^ 1074.
Proof.
  intros Hf sa. unfold sa.
  assert (B : 2 ^ 32 < 2 ^ 53) by reflexivity.
  assert (Hf' : 0 < f < 2 ^ 53) by lia.
  rewrite recip_eval by exact Hf.
  pose proof (recip_mantissa_range f Hf') as R.
  pose proof (mant_range f Hf') as M.
  pose proof (expo_range f 32 Hf ltac:(lia)) as E.
  rewrite scaled_finite_of by (try lia; apply rne_div_range; lia).
  pose proof (rne_div_near (2 ^ 105) (mant f) ltac:(lia)) as [Nlo Nhi].
  set (qa := rne_div (2 ^ 105) (mant f)) in *.
  destruct (mant_expo f Hf') as [EM P].
  replace (- 105 - expo f + 1074) with (969 + - expo f) by lia.
  rewrite Z.pow_add_r by lia.
  assert (W : 0 < 2 ^ (- expo f)) by (apply Z.pow_pos_nonneg; lia).
  set (w := 2 ^ (- expo f)) in *.
  replace (qa * (2 ^ 969 * w) * f) with (qa * (f * w) * 2 ^ 969) by ring.
  rewrite <- EM.
  change (2 ^ 1074) with (2 ^ 105 * 2 ^ 969).
  assert (C : 0 < 2 ^ 969) by reflexivity. set (c := 2 ^ 969) in *.
  change (2 ^ 53) with 9007199254740992 in *.
  change (2 ^ 52) with 4503599627370496 in *.
  change (2 ^ 105) with 40564819207303340847894502572032 in *.
  change (2 * 40564819207303340847894502572032)
    with 81129638414606681695789005144064 in *.
  split.
  - assert (H : (9007199254740992 - 1) * 40564819207303340847894502572032 <=
                9007199254740992 * (qa * mant f)) by nia.
    nia.
  - assert (H : 9007199254740992 * (qa * mant f) <=
                (9007199254740992 + 1) * 40564819207303340847894502572032) by nia.
    nia.
Qed.

(** The product is within one part in 2^53 of the exact product. *)
Lemma dmul_error (x y : spec_float) :
  pos_normal (- 200) 200 x -> pos_normal (- 200) 200 y ->
  (2 ^ 53 - 1) * (scaled x * scaled y) <= 2 ^ 53 * (scaled (dmul x y) * 2 ^ 1074) /\
  2 ^ 53 * (scaled (dmul x y) * 2 ^ 1074) <= (2 ^ 53 + 1) * (scaled x * scaled y).
Proof.
  intros (ma & ea & -> & Ha & Ea) (ml & el & -> & Hl & El).
  destruct (dmul_scaled ma ea ml el Ha Hl ltac:(lia) ltac:(lia)) as (Hn & HP & ->).
  set (n := Zdigits2 (Z.pos ma * Z.pos ml) - 53) in *.
  cbn [scaled cond_Zopp].
  assert (Wp : 0 < 2 ^ n) by (apply Z.pow_pos_nonneg; lia).
  pose proof (rne_div_near (Z.pos ma * Z.pos ml) (2 ^ n) Wp) as [Nlo Nhi].
  set (qp := rne_div (Z.pos ma * Z.pos ml) (2 ^ n)) in *.
  assert (Q : 2 ^ (ea + el + n + 1074) * 2 ^ 1074 =
              2 ^ n * (2 ^ (ea + 1074) * 2 ^ (el + 1074))).
  { rewrite <- !Z.pow_add_r by lia. f_equal. lia. }
  assert (A : 0 < 2 ^ (ea + 1074)) by (apply Z.pow_pos_nonneg; lia).
  assert (Bp : 0 < 2 ^ (el + 1074)) by (apply Z.pow_pos_nonneg; lia).
  set (a := 2 ^ (ea + 1074)) in *. set (b := 2 ^ (el + 1074)) in *.
  set (W := 2 ^ n) in *. set (P := Z.pos ma * Z.pos ml) in *.
  replace (qp * 2 ^ (ea + el + n + 1074) * 2 ^ 1074) with (qp * W * (a * b))
    by (rewrite <- (Z.mul_assoc qp (2 ^ (ea + el + n + 1074)) (2 ^ 1074)), Q; ring).
  replace (Z.pos ma * a * (Z.pos ml * b)) with (P * (a * b)) by (unfold P; ring).
  assert (AB : 0 < a * b) by nia. set (ab := a * b) in *.
  change (2 ^ 53) with 9007199254740992 in *.
  change (2 ^ 52) with 4503599627370496 in *.
  assert (U : 9007199254740992 * (qp * W) <= (9007199254740992 + 1) * P) by nia.
  assert (V : (9007199254740992 - 1) * P <= 9007199254740992 * (qp * W)) by nia.
  split; nia.
Qed.

Section Accuracy.

Variable L : Z.
Hypothesis HL : 0 < L < 2 ^ 32.

(** The double product, times the frequency, misses the calibration constant
    by less than one. *)
Lemma product_error (f : Z) :
  0 < f < 2 ^ 32 ->
  let sp := scaled (dmul (ddiv (double_of_Z 1) (double_of_Z f)) (double_of_Z L)) in
  (L - 1) * 2 ^ 1074 < sp * f < (L + 1) * 2 ^ 1074.
Proof.
  intros Hf sp. unfold sp.
  pose proof (recip_error f Hf) as [Alo Ahi]. cbv zeta in Alo, Ahi.
  assert (Nx : pos_normal (- 200) 200 (ddiv (double_of_Z 1) (double_of_Z f)))
    by (eapply pos_normal_weaken; [apply recip_normal; exact Hf | |]; lia).
  assert (Ny : pos_normal (- 200) 200 (double_of_Z L))
    by (eapply pos_normal_weaken; [apply L_double_normal; exact HL | |]; lia).
  destruct (dmul_error _ _ Nx Ny) as [Plo Phi].
  assert (B : 2 ^ 32 < 2 ^ 53) by reflexivity.
  rewrite scaled_double_of_Z in Plo, Phi by lia.
  destruct (product_normal L HL f Hf) as (mp & ep & Ep & Hmp & Hep).
  destruct Nx as (ma & ea & Ea & Hma & Hea).
  rewrite Ea in *. rewrite Ep in *. cbn [scaled cond_Zopp] in *.
  assert (A : 0 < 2 ^ (ea + 1074)) by (apply Z.pow_pos_nonneg; lia).
  assert (C : 0 < 2 ^ (ep + 1074)) by (apply Z.pow_pos_nonneg; lia).
  set (sa := Z.pos ma * 2 ^ (ea + 1074)) in *.
  set (sp' := Z.pos mp * 2 ^ (ep + 1074)) in *.
  assert (T : 0 < 2 ^ 1074) by reflexivity. set (t := 2 ^ 1074) in *.
  change (2 ^ 53) with 9007199254740992 in *.
  change (2 ^ 32) with 4294967296 in *.
  assert (Plo' : (9007199254740992 - 1) * (sa * L) <= 9007199254740992 * sp') by nia.
  assert (Phi' : 9007199254740992 * sp' <= (9007199254740992 + 1) * (sa * L)) by nia.
  assert (Sa : 0 < sa) by (unfold sa; nia).
  assert (U : 9007199254740992 * 9007199254740992 * (sp' * f) <=
              (9007199254740992 + 1) * (9007199254740992 + 1) * (L * t)).
  { assert (9007199254740992 * (9007199254740992 * sp' * f) <=
            9007199254740992 * ((9007199254740992 + 1) * (sa * L) * f)) by nia.
    assert ((9007199254740992 + 1) * L * (9007199254740992 * (sa * f)) <=
            (9007199254740992 + 1) * L * ((9007199254740992 + 1) * t)) by nia.
    nia. }
  assert (V : (9007199254740992 - 1) * (9007199254740992 - 1) * (L * t) <=
              9007199254740992 * 9007199254740992 * (sp' * f)).
  { assert (9007199254740992 * ((9007199254740992 - 1) * (sa * L) * f) <=
            9007199254740992 * (9007199254740992 * sp' * f)) by nia.
    assert ((9007199254740992 - 1) * L * ((9007199254740992 - 1) * t) <=
            (9007199254740992 - 1) * L * (9007199254740992 * (sa * f))) by nia.
    nia. }
  split; nia.
Qed.

(** The integer part of the half period is the quotient L / (2 f), or one
    less when (2 f) divides L. *)
Lemma half_period_floor (f : Z) :
  0 < f < 2 ^ 32 ->
  let c := scaled (half_period L f) / 2 ^ 1074 in
  (L - 1) / (2 * f) <= c <= L / (2 * f).
Proof.
  intros Hf c.
  pose proof (half_period_scaled L HL f Hf) as Eh.
  pose proof (product_error f Hf) as [Plo Phi]. cbv zeta in Plo, Phi.
  rewrite <- Eh in Plo, Phi.
  assert (T : 0 < 2 ^ 1074) by reflexivity.
  pose proof (Z.div_mod (scaled (half_period L f)) (2 ^ 1074) ltac:(lia)) as Ec.
  pose proof (Z.mod_pos_bound (scaled (half_period L f)) (2 ^ 1074) T) as Er.
  fold c in Ec.
  set (sh := scaled (half_period L f)) in *.
  set (r := sh mod 2 ^ 1074) in *. set (t := 2 ^ 1074) in *.
  split.
  - assert (H : (L - 1) / (2 * f) < c + 1); [|lia].
    apply Z.div_lt_upper_bound; [lia|].
    assert (H1 : (L - 1) * t < 2 * f * (c + 1) * t) by nia.
    nia.
  - apply Z.div_le_lower_bound; [lia|].
    assert (H1 : 2 * f * c * t < (L + 1) * t) by nia.
    nia.
Qed.

End Accuracy.

(** ** setFrequency *)

Lemma setFrequency_run (L f : Z) (s : State) :
  0 < L < 2 ^ 32 -> 0 < f < 2 ^ 32 ->
  let c := scaled (half_period L f) / 2 ^ 1074 in
  0 <= c < 2 ^ 31 /\
  setFrequency L f s =
  Some (tt, {| self := set_m_clockSleepCount c (set_m_frequency f (self s));
               world := world s |}).
Proof.
  intros HL Hf c.
  destruct (half_period_trunc L HL f Hf) as [Et Hc]. fold c in Et, Hc.
  split; [exact Hc|].
  unfold setFrequency, bind, modify_self, double_to_int32. cbn [self world].
  rewrite Et.
  replace ((- 2 ^ 31 <=? c) && (c <? 2 ^ 31)) with true.
  - replace (c <? 0) with false; [reflexivity|].
    symmetry; apply Z.ltb_ge; lia.
  - symmetry. apply andb_true_iff. split; [apply Z.leb_le | apply Z.ltb_lt]; lia.
Qed.

(** C8. For a calibration constant below 2^32 and frequencies
    0 < f1 < f2 (32-bit), [setFrequency] returns for both and the half-period
    count stored for f2 is at most the one stored for f1. *)
Theorem setFrequency_monotone (L f1 f2 : Z) (s1 s2 : State) :
  0 < L < 2 ^ 32 -> 0 < f1 < f2 -> f2 < 2 ^ 32 ->
  exists s1' s2',
    setFrequency L f1 s1 = Some (tt, s1') /\
    setFrequency L f2 s2 = Some (tt, s2') /\
    m_clockSleepCount (self s2') <= m_clockSleepCount (self s1').
Proof.
  intros HL H1 H2.
  destruct (setFrequency_run L f1 s1 HL ltac:(lia)) as [_ E1].
  destruct (setFrequency_run L f2 s2 HL ltac:(lia)) as [_ E2].
  eexists; eexists. split; [exact E1|]. split; [exact E2|].
  cbn [self m_clockSleepCount set_m_clockSleepCount].
  apply Z.div_le_mono; [reflexivity|].
  apply half_period_mono; [exact HL | lia | lia].
Qed.

Lemma setFrequency_monotone_witness :
  exists s1' s2',
    setFrequency example_loops_per_second 1000000 mode0_state = Some (tt, s1') /\
    setFrequency example_loops_per_second 2000000 mode0_state = Some (tt, s2') /\
    m_clockSleepCount (self s2') <= m_clockSleepCount (self s1').
Proof.
  apply (setFrequency_monotone example_loops_per_second 1000000 2000000);
    unfold example_loops_per_second; lia.
Defined.

(** C2, as stated, fails.  With 10^8 loops per second, at 30 MHz the stored
    count is 1, the quotient 1.66.. cut off, where rounding gives 2; and at
    the largest 32-bit frequency the stored count is 0, below the minimum of
    1. *)
Lemma setFrequency_not_rounded_nor_clamped :
  (exists s',
     setFrequency example_loops_per_second 30000000 mode0_state = Some (tt, s') /\
     m_clockSleepCount (self s') = 1 /\
     rounded_half_period example_loops_per_second 30000000 = 2) /\
  (exists s',
     setFrequency example_loops_per_second 4294967295 mode0_state = Some (tt, s') /\
     m_clockSleepCount (self s') = 0).
Proof.
  split; eexists; (split; [vm_compute; reflexivity|]); vm_compute; auto.
Qed.

(** C2, amended. For a calibration constant L below 2^32 and every
    frequency hz > 0 with 2 hz < L, [setFrequency hz] returns, stores hz, and
    sets the half-period count to the double-precision value of
    (1/hz) * L / 2 cut off toward zero: this is the quotient L / (2 hz)
    rounded down, or one less when 2 hz divides L; it is at least 1. *)
Theorem setFrequency_truncates (L hz : Z) (s : State) :
  0 < L < 2 ^ 32 -> 0 < hz -> 2 * hz < L ->
  exists s',
    setFrequency L hz s = Some (tt, s') /\
    double_to_int32 (half_period L hz) = Some (m_clockSleepCount (self s')) /\
    m_frequency (self s') = hz /\
    (L - 1) / (2 * hz) <= m_clockSleepCount (self s') <= L / (2 * hz) /\
    (L mod (2 * hz) <> 0 -> m_clockSleepCount (self s') = L / (2 * hz)) /\
    1 <= m_clockSleepCount (self s') /\
    world s' = world s.
Proof.
  intros HL Hhz Hlt.
  assert (Hf : 0 < hz < 2 ^ 32) by lia.
  destruct (setFrequency_run L hz s HL Hf) as [Hc E].
  destruct (half_period_trunc L HL hz Hf) as [Et _].
  pose proof (half_period_floor L HL hz Hf) as Hfl. cbv zeta in Hfl.
  eexists. split; [exact E|].
  cbn [self world m_clockSleepCount m_frequency set_m_clockSleepCount
       set_m_frequency].
  set (c := scaled (half_period L hz) / 2 ^ 1074) in *.
  assert (Hone : 1 <= (L - 1) / (2 * hz)) by (apply Z.div_le_lower_bound; lia).
  split.
  { unfold double_to_int32. rewrite Et.
    replace ((- 2 ^ 31 <=? c) && (c <? 2 ^ 31)) with true; [reflexivity|].
    symmetry. apply andb_true_iff. split; [apply Z.leb_le | apply Z.ltb_lt]; lia. }
  split; [reflexivity|]. split; [exact Hfl|]. split; [|split; [lia | reflexivity]].
  intros Hmod.
  assert (Heq : (L - 1) / (2 * hz) = L / (2 * hz)); [|lia].
  pose proof (Z.div_mod L (2 * hz) ltac:(lia)) as Ed.
  pose proof (Z.mod_pos_bound L (2 * hz) ltac:(lia)) as Er.
  symmetry. apply Z.div_unique with (r := L mod (2 * hz) - 1); lia.
Qed.

Lemma setFrequency_truncates_witness :
  exists s',
    setFrequency example_loops_per_second 30000000 mode0_state = Some (tt, s') /\
    1 <= m_clockSleepCount (self s').
Proof.
  destruct (setFrequency_truncates example_loops_per_second 30000000 mode0_state)
    as (s' & H & _ & _ & _ & _ & H1 & _);
    try (unfold example_loops_per_second; lia).
  exists s'. split; [exact H | exact H1].
Defined.

(** Above half the calibration constant nothing is left of the quotient: the
    stored count is 0, the guard [c < 0] letting it through. *)
Lemma setFrequency_above_half (L hz : Z) (s : State) :
  0 < L < 2 ^ 32 -> L < 2 * hz -> hz < 2 ^ 32 ->
  exists s',
    setFrequency L hz s = Some (tt, s') /\ m_clockSleepCount (self s') = 0.
Proof.
  intros HL Hlt Hhz.
  assert (Hf : 0 < hz < 2 ^ 32) by lia.
  destruct (setFrequency_run L hz s HL Hf) as [Hc E].
  pose proof (half_period_floor L HL hz Hf) as [_ Hup]. cbv zeta in Hup.
  rewrite (Z.div_small L (2 * hz)) in Hup by lia.
  eexists. split; [exact E|].
  cbn [self m_clockSleepCount set_m_clockSleepCount]. lia.
Qed.

(** * Further properties of the transfer engine and of the setters *)

Lemma writes_to_app (p : Pin) (a b : list Event) :
  writes_to p (a ++ b) = writes_to p a ++ writes_to p b.
Proof.
  induction a as [|e a IH]; [reflexivity|].
  destruct e as [q v| | |]; cbn [app writes_to]; rewrite ?IH; try reflexivity.
  destruct (Pin_eqb q p); reflexivity.
Qed.

Lemma reads_app (a b : list Event) : reads (a ++ b) = reads a ++ reads b.
Proof.
  induction a as [|e a IH]; [reflexivity|].
  destruct e; cbn [app reads]; rewrite ?IH; reflexivity.
Qed.

Lemma waits_app (a b : list Event) : waits (a ++ b) = waits a ++ waits b.
Proof.
  induction a as [|e a IH]; [reflexivity|].
  destruct e; cbn [app waits]; rewrite ?IH; reflexivity.
Qed.

Lemma printed_app (a b : list Event) : printed (a ++ b) = printed a ++ printed b.
Proof.
  induction a as [|e a IH]; [reflexivity|].
  destruct e; cbn [app printed]; rewrite ?IH; reflexivity.
Qed.

Lemma busy_iterations_app (a b : list Event) :
  busy_iterations (a ++ b) = busy_iterations a + busy_iterations b.
Proof.
  unfold busy_iterations. rewrite waits_app.
  induction (waits a) as [|n l IH]; cbn [app fold_right]; lia.
Qed.

(** After a list of events the clock line is at the level written last, and
    where it was if none was written. *)
Lemma sck_level_replay (evs : list Event) (w : World) :
  sck_level (replay evs w) = final_level (writes_to SCK evs) (sck_level w).
Proof.
  revert w; induction evs as [|e evs IH]; intros w; [reflexivity|].
  change (replay (e :: evs) w) with (replay evs (apply_event w e)).
  rewrite IH. destruct e as [[] v| | |]; reflexivity.
Qed.

Lemma mosi_level_replay (evs : list Event) (w : World) :
  mosi_level (replay evs w) = final_level (writes_to MOSI evs) (mosi_level w).
Proof.
  revert w; induction evs as [|e evs IH]; intros w; [reflexivity|].
  change (replay (e :: evs) w) with (replay evs (apply_event w e)).
  rewrite IH. destruct e as [[] v| | |]; reflexivity.
Qed.

Lemma final_level_pulses {A} (cpol : Z) (l : list A) (level : Z) :
  final_level (concat (map (fun _ => pulse cpol) l)) level =
  match l with [] => level | _ => cpol end.
Proof.
  revert level; induction l as [|a l IH]; intros level; [reflexivity|].
  cbn [map concat pulse app final_level fold_left].
  fold (final_level (concat (map (fun _ => pulse cpol) l)) cpol).
  rewrite IH. destruct l; reflexivity.
Qed.

Section Waveform.

Variable miso_line : World -> Z.

(** What one bit exchange does to the lines in a configured state, whatever
    the phase. *)
Lemma writeBit_configured (bit : Z) (s : State) :
  configured s ->
  exists v evs,
    writeBit miso_line bit s =
      Some (to_uint8 v, {| self := self s; world := replay evs (world s) |}) /\
    writes_to SCK evs = pulse (m_cpol (self s)) /\
    writes_to MOSI evs = [level_of bit] /\
    reads evs = [v] /\
    waits evs = [m_clockSleepCount (self s); m_clockSleepCount (self s)] /\
    printed evs = [].
Proof.
  intros Hs. pose proof Hs as [Hv Hc].
  destruct Hv as [Hm | [Hm | [Hm | Hm]]].
  - eexists _, _. rewrite (writeBit_cpha0 miso_line bit s Hs (or_introl Hm)).
    rewrite Hc. split; [reflexivity|]. repeat split.
  - eexists _, _. rewrite (writeBit_cpha1 miso_line bit s Hs (or_introl Hm)).
    rewrite Hc. split; [reflexivity|]. repeat split.
  - eexists _, _. rewrite (writeBit_cpha0 miso_line bit s Hs (or_intror Hm)).
    rewrite Hc. split; [reflexivity|]. repeat split.
  - eexists _, _. rewrite (writeBit_cpha1 miso_line bit s Hs (or_intror Hm)).
    rewrite Hc. split; [reflexivity|]. repeat split.
Qed.

Lemma exchange_bits_configured (outs : list bool) (acc : Z) (s : State) :
  configured s ->
  exists evs,
    exchange_bits (writeBit miso_line) outs acc s =
      Some (bits_value (map sample_bit (reads evs)) acc,
            {| self := self s; world := replay evs (world s) |}) /\
    writes_to SCK evs = concat (map (fun _ => pulse (m_cpol (self s))) outs) /\
    writes_to MOSI evs = map bit_level outs /\
    length (reads evs) = length outs /\
    waits evs = repeat (m_clockSleepCount (self s)) (2 * length outs) /\
    printed evs = [].
Proof.
  revert acc s; induction outs as [|o outs IH]; intros acc s Hs.
  - exists []. destruct s as [ob w]. repeat split.
  - cbn [exchange_bits]. unfold bind.
    destruct (writeBit_configured (if o then 128 else 0) s Hs)
      as (v & evs1 & -> & Hk & Hd & Hr & Hw & Hp).
    set (s1 := {| self := self s; world := replay evs1 (world s) |}).
    assert (Hs1 : configured s1) by exact Hs.
    destruct (IH (2 * acc + (if to_uint8 v =? 0 then 0 else 1)) s1 Hs1)
      as (evs2 & -> & Hk2 & Hd2 & Hr2 & Hw2 & Hp2).
    exists (evs1 ++ evs2). cbn [self world s1].
    rewrite replay_app, writes_to_app, writes_to_app, reads_app, waits_app,
      printed_app, Hk, Hd, Hr, Hw, Hp, Hk2, Hd2, Hw2, Hp2, length_app, Hr2.
    split; [|repeat split].
    + f_equal. f_equal. cbn [map app bits_value fold_left sample_bit].
      unfold sample_bit. destruct (to_uint8 v =? 0); reflexivity.
    + cbn [map bit_level]. f_equal. unfold level_of. destruct o; reflexivity.
    + cbn [length]. replace (2 * S (length outs))%nat with (S (S (2 * length outs))) by lia.
      reflexivity.
Qed.

End Waveform.

Section Transfer.

Variable miso_line : World -> Z.

Lemma writeByte_configured (byte : Z) (s : State) :
  configured s ->
  exists evs,
    writeByte miso_line byte s =
      Some (bits_value (map sample_bit (reads evs)) 0,
            {| self := self s; world := replay evs (world s) |}) /\
    writes_to SCK evs = concat (repeat (pulse (m_cpol (self s))) 8) /\
    writes_to MOSI evs = map bit_level (top_bits 8 byte) /\
    length (reads evs) = 8%nat /\
    waits evs = repeat (m_clockSleepCount (self s)) 16 /\
    printed evs = [].
Proof.
  intros Hs. unfold writeByte.
  rewrite writeByte_loop_bits by (cbn; lia).
  destruct (exchange_bits_configured miso_line (top_bits 8 byte) 0 s Hs)
    as (evs & E & Hk & Hd & Hr & Hw & Hp).
  exists evs. repeat split; assumption.
Qed.

Lemma write_method_spec (buffer : list Z) (s : State) :
  write_method miso_line buffer s =
  transfer_spec (writeByte miso_line) buffer s.
Proof.
  unfold write_method, write.
  change (write_loop miso_line (length buffer) (length (@nil Z))
            ([] ++ buffer) s = transfer_spec (writeByte miso_line) buffer s).
  rewrite (write_loop_spec miso_line buffer [] s). unfold bind, ret.
  destruct (transfer_spec (writeByte miso_line) buffer s) as [[outs s']|];
    reflexivity.
Qed.

Lemma busy_iterations_half_periods (evs : list Event) (c : Z) :
  waits evs = repeat c 16 ->
  busy_iterations evs = 16 * usleepByCounting_iterations c.
Proof.
  intros H. unfold busy_iterations. rewrite H. cbn [repeat fold_right]. lia.
Qed.

Lemma transfer_configured (buffer : list Z) (s : State) :
  configured s ->
  exists outs evs,
    transfer_spec (writeByte miso_line) buffer s =
      Some (outs, {| self := self s; world := replay evs (world s) |}) /\
    length outs = length buffer /\
    writes_to SCK evs =
      concat (repeat (pulse (m_cpol (self s))) (8 * length buffer)) /\
    writes_to MOSI evs =
      concat (map (fun b => map bit_level (top_bits 8 b)) buffer) /\
    waits evs =
      concat (map (fun _ => repeat (m_clockSleepCount (self s)) 16 ++
                            [m_betweenByteSleepCount (self s)]) buffer) /\
    printed evs = [] /\
    busy_iterations evs =
      Z.of_nat (length buffer) *
      (16 * usleepByCounting_iterations (m_clockSleepCount (self s)) +
       usleepByCounting_iterations (m_betweenByteSleepCount (self s))).
Proof.
  revert s; induction buffer as [|b rest IH]; intros s Hs.
  - exists [], []. destruct s as [o w]. repeat split.
  - cbn [transfer_spec]. unfold bind at 1.
    destruct (writeByte_configured b s Hs) as (evs1 & -> & Hk & Hd & Hr & Hw & Hp).
    unfold bind, get_self, usleepByCounting. cbn [self world].
    set (bt := m_betweenByteSleepCount (self s)).
    set (s2 := {| self := self s;
                  world := log (Usleep bt) (replay evs1 (world s)) |}).
    assert (Hs2 : configured s2) by exact Hs.
    destruct (IH s2 Hs2) as (outs & evs2 & -> & Hlen & Hk2 & Hd2 & Hw2 & Hp2 & Hb2).
    cbn [self world s2] in *.
    eexists (_ :: outs), (evs1 ++ Usleep bt :: evs2).
    split; [|split; [|split; [|split; [|split; [|split]]]]].
    + unfold ret. do 3 f_equal. rewrite replay_app. reflexivity.
    + cbn [length]. now rewrite Hlen.
    + rewrite writes_to_app. cbn [writes_to]. rewrite Hk, Hk2.
      replace (8 * length (b :: rest))%nat with (8 + 8 * length rest)%nat
        by (cbn [length]; lia).
      rewrite repeat_app, concat_app. reflexivity.
    + rewrite writes_to_app. cbn [writes_to]. rewrite Hd, Hd2. reflexivity.
    + rewrite waits_app. cbn [waits]. rewrite Hw, Hw2.
      cbn [map concat]. rewrite <- app_assoc. reflexivity.
    + rewrite printed_app. cbn [printed]. rewrite Hp, Hp2. reflexivity.
    + rewrite busy_iterations_app.
      rewrite (busy_iterations_half_periods evs1 _ Hw).
      change (Usleep bt :: evs2) with ([Usleep bt] ++ evs2).
      rewrite busy_iterations_app, Hb2.
      change (busy_iterations [Usleep bt]) with (usleepByCounting_iterations bt + 0).
      cbn [length]. rewrite Nat2Z.inj_succ. unfold bt. ring.
Qed.

Lemma transfer_loopback (buffer : list Z) (s : State) :
  (forall w, miso_line w = mosi_level w) ->
  valid_mode (m_mode (self s)) ->
  Forall (fun b => 0 <= b < 256) buffer ->
  exists s',
    transfer_spec (writeByte miso_line) buffer s = Some (buffer, s') /\
    self s' = self s.
Proof.
  intros Hloop. revert s; induction buffer as [|b rest IH]; intros s Hm Hb.
  - exists s. split; reflexivity.
  - inversion Hb as [|b' rest' Hb1 Hb2]; subst.
    cbn [transfer_spec]. unfold bind at 1. unfold writeByte.
    rewrite writeByte_loop_bits by (cbn; lia).
    destruct (exchange_bits_loopback miso_line (top_bits 8 b) 0 s Hloop Hm)
      as (s1 & -> & Hs1).
    rewrite top_bits_value by exact Hb1.
    unfold bind, get_self, usleepByCounting.
    set (s2 := {| self := self s1;
                  world := log (Usleep (m_betweenByteSleepCount (self s1))) (world s1) |}).
    assert (Hm2 : valid_mode (m_mode (self s2))) by (cbn [s2 self]; congruence).
    destruct (IH s2 Hm2 Hb2) as (s3 & E & Hs3).
    fold (writeByte miso_line) in E. 
    change (fun byte => writeByte_loop miso_line 8 byte 0) with (writeByte miso_line).
    rewrite E. exists s3. split; [reflexivity|]. cbn [s2 self] in Hs3. congruence.
Qed.

Lemma transfer_unhandled (buffer : list Z) (s : State) :
  ~ valid_mode (m_mode (self s)) ->
  exists evs,
    transfer_spec (writeByte miso_line) buffer s =
      Some (repeat 255 (length buffer),
            {| self := self s; world := replay evs (world s) |}) /\
    writes_to SCK evs = [] /\ writes_to MOSI evs = [] /\ reads evs = [] /\
    printed evs = repeat (m_mode (self s)) (8 * length buffer) /\
    waits evs = repeat (m_betweenByteSleepCount (self s)) (length buffer).
Proof.
  revert s; induction buffer as [|b rest IH]; intros s Hm.
  - exists []. destruct s as [o w]. repeat split.
  - cbn [transfer_spec]. unfold bind at 1. unfold writeByte.
    rewrite writeByte_loop_unhandled by exact Hm.
    unfold bind, get_self, usleepByCounting. cbn [self world].
    set (bt := m_betweenByteSleepCount (self s)).
    set (pr := repeat (Printf (m_mode (self s))) 8).
    set (s2 := {| self := self s; world := log (Usleep bt) (replay pr (world s)) |}).
    assert (Hm2 : ~ valid_mode (m_mode (self s2))) by exact Hm.
    destruct (IH s2 Hm2) as (evs2 & E & Hk & Hd & Hr & Hp & Hw).
    change (fun byte => writeByte_loop miso_line 8 byte 0) with (writeByte miso_line).
    rewrite E. cbn [self world s2] in *.
    exists (pr ++ Usleep bt :: evs2).
    split; [|split; [|split; [|split; [|split]]]].
    + unfold ret. rewrite replay_app. reflexivity.
    + rewrite writes_to_app. cbn [writes_to]. rewrite Hk. reflexivity.
    + rewrite writes_to_app. cbn [writes_to]. rewrite Hd. reflexivity.
    + rewrite reads_app. cbn [reads]. rewrite Hr. reflexivity.
    + rewrite printed_app. cbn [printed]. rewrite Hp.
      replace (8 * length (b :: rest))%nat with (8 + 8 * length rest)%nat
        by (cbn [length]; lia).
      rewrite repeat_app. reflexivity.
    + rewrite waits_app. cbn [waits]. rewrite Hw. reflexivity.
Qed.

End Transfer.

Section Bounds.

Variable miso_line : World -> Z.

Lemma writeByte_returns (b : Z) (s : State) :
  exists r evs,
    writeByte miso_line b s =
      Some (r, {| self := self s; world := replay evs (world s) |}).
Proof.
  destruct (writeByte_loop_run miso_line 8 b 0 s) as (r & evs & E & _); [lia|].
  exists r, evs. exact E.
Qed.

(** The loop of [write] over a stretch [mid] of the buffer. *)
Lemma write_loop_stretch (mid pre tail : list Z) (s : State) :
  write_loop miso_line (length mid) (length pre) (pre ++ mid ++ tail) s =
  (let* outs := transfer_spec (writeByte miso_line) mid in
   ret (pre ++ outs ++ tail)) s.
Proof.
  revert pre s; induction mid as [|b mid IH]; intros pre s.
  - reflexivity.
  - cbn [length write_loop transfer_spec app].
    rewrite list_lookup_middle by reflexivity.
    unfold bind, get_self, usleepByCounting, ret.
    destruct (writeByte miso_line b s) as [[r s1]|]; [|reflexivity].
    replace (<[length pre := r]> (pre ++ b :: mid ++ tail))
      with ((pre ++ [r]) ++ mid ++ tail).
    + replace (S (length pre)) with (length (pre ++ [r]))
        by (rewrite length_app; cbn; lia).
      rewrite IH. unfold bind, ret.
      match goal with
      | |- match ?c with _ => _ end = _ => destruct c as [[outs s2]|]
      end; [|reflexivity].
      now rewrite <- app_assoc.
    + rewrite insert_app_r_alt by lia.
      rewrite Nat.sub_diag, <- app_assoc. reflexivity.
Qed.

(** Once the index has reached the end of the buffer, another iteration
    reads past it. *)
Lemma write_loop_past_end (mid pre : list Z) (k : nat) (s : State) :
  write_loop miso_line (length mid + S k) (length pre) (pre ++ mid) s = None.
Proof.
  revert pre s; induction mid as [|b mid IH]; intros pre s.
  - cbn [length Nat.add write_loop]. rewrite app_nil_r.
    rewrite lookup_ge_None_2 by lia. reflexivity.
  - cbn [length Nat.add write_loop].
    rewrite list_lookup_middle by reflexivity.
    unfold bind, get_self, usleepByCounting.
    destruct (writeByte_returns b s) as (r & evs & ->).
    replace (<[length pre := r]> (pre ++ b :: mid)) with ((pre ++ [r]) ++ mid).
    + replace (S (length pre)) with (length (pre ++ [r]))
        by (rewrite length_app; cbn; lia).
      apply IH.
    + rewrite insert_app_r_alt by lia.
      rewrite Nat.sub_diag, <- app_assoc. reflexivity.
Qed.

End Bounds.

(** X1. In a configured state, whatever the slave answers, [writeByte] puts
    the eight bits of the byte on data-out, most significant first, gives
    the clock eight pulses away from the idle level and back, waits sixteen
    half periods and prints nothing. *)
Theorem writeByte_waveform (miso_line : World -> Z) (byte : Z) (s : State) :
  configured s ->
  exists r evs,
    writeByte miso_line byte s =
      Some (r, {| self := self s; world := replay evs (world s) |}) /\
    writes_to MOSI evs =
      map bit_level
        [Z.testbit byte 7; Z.testbit byte 6; Z.testbit byte 5;
         Z.testbit byte 4; Z.testbit byte 3; Z.testbit byte 2;
         Z.testbit byte 1; Z.testbit byte 0] /\
    writes_to SCK evs = concat (repeat (pulse (m_cpol (self s))) 8) /\
    waits evs = repeat (m_clockSleepCount (self s)) 16 /\
    printed evs = [].
Proof.
  intros Hs.
  destruct (writeByte_configured miso_line byte s Hs)
    as (evs & E & Hk & Hd & _ & Hw & Hp).
  eexists _, evs. split; [exact E|]. repeat split; assumption.
Qed.

(** X2. In a configured state [writeByte] samples data-in eight times and
    returns the byte whose bits, most significant first, are the samples: a
    sample counts as 1 when its low eight bits are not all zero. *)
Theorem writeByte_assembles_samples (miso_line : World -> Z) (byte : Z)
    (s : State) :
  configured s ->
  exists evs v7 v6 v5 v4 v3 v2 v1 v0,
    writeByte miso_line byte s =
      Some (128 * bit_level (sample_bit v7) + 64 * bit_level (sample_bit v6) +
            32 * bit_level (sample_bit v5) + 16 * bit_level (sample_bit v4) +
            8 * bit_level (sample_bit v3) + 4 * bit_level (sample_bit v2) +
            2 * bit_level (sample_bit v1) + bit_level (sample_bit v0),
            {| self := self s; world := replay evs (world s) |}) /\
    reads evs = [v7; v6; v5; v4; v3; v2; v1; v0].
Proof.
  intros Hs.
  destruct (writeByte_configured miso_line byte s Hs)
    as (evs & E & _ & _ & Hr & _ & _).
  destruct (reads evs) as [|v7 [|v6 [|v5 [|v4 [|v3 [|v2 [|v1 [|v0 [|]]]]]]]]] eqn:Er;
    try discriminate Hr.
  exists evs, v7, v6, v5, v4, v3, v2, v1, v0.
  split; [|exact Er]. rewrite E. do 2 f_equal.
  cbn [map bits_value fold_left]. unfold bit_level. lia.
Qed.

(** X3. In a configured state one bit exchange leaves the object as it was,
    the clock at the idle level of the mode, whatever its level before, and
    data-out at the level of the bit. *)
Theorem writeBit_leaves_clock_idle (miso_line : World -> Z) (bit : Z)
    (s : State) :
  configured s ->
  exists r s',
    writeBit miso_line bit s = Some (r, s') /\
    self s' = self s /\
    clock_idle s' /\
    mosi_level (world s') = level_of bit /\
    0 <= r < 256.
Proof.
  intros Hs.
  destruct (writeBit_configured miso_line bit s Hs)
    as (v & evs & E & Hk & Hd & _).
  eexists _, _. split; [exact E|]. cbn [self world].
  split; [reflexivity|]. split; [split; [exact Hs|]|split].
  - cbn [self world]. rewrite sck_level_replay, Hk. reflexivity.
  - rewrite mosi_level_replay, Hd. reflexivity.
  - apply to_uint8_range.
Qed.

(** X4. In a configured state, whatever the slave answers, a transfer puts on
    data-out the bits of the bytes of the buffer as it was handed in, byte
    after byte, each most significant bit first, with eight clock pulses per
    byte and no diagnostic. *)
Theorem write_bit_stream (miso_line : World -> Z) (buffer : list Z)
    (s : State) :
  configured s ->
  exists out evs,
    write_method miso_line buffer s =
      Some (out, {| self := self s; world := replay evs (world s) |}) /\
    writes_to MOSI evs =
      concat (map (fun b => map bit_level (top_bits 8 b)) buffer) /\
    writes_to SCK evs =
      concat (repeat (pulse (m_cpol (self s))) (8 * length buffer)) /\
    printed evs = [].
Proof.
  intros Hs. rewrite write_method_spec.
  destruct (transfer_configured miso_line buffer s Hs)
    as (outs & evs & E & _ & Hk & Hd & _ & Hp & _).
  exists outs, evs. repeat split; assumption.
Qed.

(** X5. In a configured state the busy-waits of a transfer are, per byte,
    sixteen half periods and one inter-byte delay, so the counting loop runs
    len * (16 * (half - 1) + (between - 1)) times in all (a count of 0
    weighing like 1), whatever the data and whatever the slave answers. *)
Theorem write_duration (miso_line : World -> Z) (buffer : list Z) (s : State) :
  configured s ->
  exists out evs,
    write_method miso_line buffer s =
      Some (out, {| self := self s; world := replay evs (world s) |}) /\
    waits evs =
      concat (map (fun _ => repeat (m_clockSleepCount (self s)) 16 ++
                            [m_betweenByteSleepCount (self s)]) buffer) /\
    busy_iterations evs =
      Z.of_nat (length buffer) *
      (16 * Z.max 0 (m_clockSleepCount (self s) - 1) +
       Z.max 0 (m_betweenByteSleepCount (self s) - 1)).
Proof.
  intros Hs. rewrite write_method_spec.
  destruct (transfer_configured miso_line buffer s Hs)
    as (outs & evs & E & _ & _ & _ & Hw & _ & Hb).
  exists outs, evs. repeat split; assumption.
Qed.

(** X6. A transfer that starts with the clock idle ends with the clock idle,
    and changes nothing in the object: mode, polarity, frequency and delays
    are as before; as many bytes come back as went in. *)
Theorem write_keeps_clock_idle (miso_line : World -> Z) (buffer : list Z)
    (s : State) :
  clock_idle s ->
  exists out s',
    write_method miso_line buffer s = Some (out, s') /\
    self s' = self s /\
    clock_idle s' /\
    length out = length buffer.
Proof.
  intros [Hs Hidle]. rewrite write_method_spec.
  destruct (transfer_configured miso_line buffer s Hs)
    as (outs & evs & E & Hlen & Hk & _).
  eexists _, _. split; [exact E|]. cbn [self].
  split; [reflexivity|]. split; [|exact Hlen].
  split; [exact Hs|]. cbn [self world].
  rewrite sck_level_replay, Hk.
  destruct buffer as [|b rest]; [exact Hidle|].
  replace (8 * length (b :: rest))%nat with (S (7 + 8 * length rest))
    by (cbn [length]; lia).
  cbn [repeat concat pulse app final_level fold_left].
  fold (final_level (concat (repeat [opposite (m_cpol (self s)); m_cpol (self s)]
                               (7 + 8 * length rest))) (m_cpol (self s))).
  generalize (7 + 8 * length rest)%nat. intros n.
  induction n as [|n IH]; [reflexivity|].
  cbn [repeat concat app final_level fold_left]. exact IH.
Qed.

(** X7. Loopback of a whole transfer: when data-in always shows the level
    last driven on data-out, in every mode 0..3 a buffer of byte values comes
    back unchanged. *)
Theorem write_loopback (miso_line : World -> Z) (buffer : list Z) (s : State) :
  (forall w, miso_line w = mosi_level w) ->
  valid_mode (m_mode (self s)) ->
  Forall (fun b => 0 <= b < 256) buffer ->
  exists s',
    write_method miso_line buffer s = Some (buffer, s') /\ self s' = self s.
Proof.
  intros Hloop Hm Hb. rewrite write_method_spec.
  apply transfer_loopback; assumption.
Qed.

(** X8. When the stored mode is none of 0..3, a transfer overwrites every
    byte of the buffer with 0xFF without touching a line: no write to clock
    or data-out, no read of data-in, eight diagnostics per byte, and the
    inter-byte delays. *)
Theorem write_unhandled_mode (miso_line : World -> Z) (buffer : list Z)
    (s : State) :
  ~ valid_mode (m_mode (self s)) ->
  exists evs,
    write_method miso_line buffer s =
      Some (repeat 0xFF (length buffer),
            {| self := self s; world := replay evs (world s) |}) /\
    writes_to SCK evs = [] /\ writes_to MOSI evs = [] /\ reads evs = [] /\
    printed evs = repeat (m_mode (self s)) (8 * length buffer) /\
    waits evs = repeat (m_betweenByteSleepCount (self s)) (length buffer).
Proof.
  intros Hm. rewrite write_method_spec.
  apply transfer_unhandled; exact Hm.
Qed.

(** X9. [write] with a length not above that of the buffer exchanges the first
    [bufferLength] bytes only: the rest of the buffer is handed back
    untouched. *)
Theorem write_prefix (miso_line : World -> Z) (buffer : list Z)
    (bufferLength : nat) (s : State) :
  (bufferLength <= length buffer)%nat ->
  exists out s',
    write miso_line buffer bufferLength s =
      Some (out ++ drop bufferLength buffer, s') /\
    transfer_spec (writeByte miso_line) (take bufferLength buffer) s =
      Some (out, s') /\
    length out = bufferLength.
Proof.
  intros Hn. unfold write.
  assert (Hl : length (take bufferLength buffer) = bufferLength)
    by (rewrite length_take; lia).
  replace (write_loop miso_line bufferLength 0 buffer s)
    with (write_loop miso_line (length (take bufferLength buffer))
            (length (@nil Z))
            ([] ++ take bufferLength buffer ++ drop bufferLength buffer) s)
    by (cbn [app length]; rewrite Hl, take_drop; reflexivity).
  rewrite write_loop_stretch. unfold bind, ret. cbn [app].
  destruct (transfer_spec_run miso_line (take bufferLength buffer) s)
    as (out & evs & Et & Hlen & _).
  rewrite Et. eexists _, _. split; [reflexivity|]. split; [reflexivity|].
  rewrite Hlen. exact Hl.
Qed.

(** X10. [write] with a length above that of the buffer reads past its end:
    the call has no defined outcome. *)
Theorem write_past_end (miso_line : World -> Z) (buffer : list Z)
    (bufferLength : nat) (s : State) :
  (length buffer < bufferLength)%nat ->
  write miso_line buffer bufferLength s = None.
Proof.
  intros Hn. unfold write.
  replace bufferLength with (length buffer + S (bufferLength - length buffer - 1))%nat
    by lia.
  apply (write_loop_past_end miso_line buffer [] _ s).
Qed.

Lemma writeByte_waveform_witness :
  exists r evs,
    writeByte mosi_level 0xA5 mode0_state =
      Some (r, {| self := self mode0_state;
                  world := replay evs (world mode0_state) |}) /\
    writes_to MOSI evs = [1; 0; 1; 0; 0; 1; 0; 1].
Proof.
  destruct (writeByte_waveform mosi_level 0xA5 mode0_state)
    as (r & evs & E & Hd & _).
  - split; [left; reflexivity | reflexivity].
  - exists r, evs. split; [exact E | exact Hd].
Defined.

Lemma writeByte_assembles_samples_witness :
  exists evs r,
    writeByte mosi_level 0xA5 mode0_state =
      Some (r, {| self := self mode0_state;
                  world := replay evs (world mode0_state) |}) /\
    length (reads evs) = 8%nat.
Proof.
  destruct (writeByte_assembles_samples mosi_level 0xA5 mode0_state)
    as (evs & v7 & v6 & v5 & v4 & v3 & v2 & v1 & v0 & E & Hr).
  - split; [left; reflexivity | reflexivity].
  - exists evs. eexists. split; [exact E|]. rewrite Hr. reflexivity.
Defined.

Lemma writeBit_leaves_clock_idle_witness :
  exists r s', writeBit mosi_level 1 mode3_state = Some (r, s') /\ clock_idle s'.
Proof.
  destruct (writeBit_leaves_clock_idle mosi_level 1 mode3_state)
    as (r & s' & E & _ & Hi & _).
  - split; [right; right; right; reflexivity | reflexivity].
  - exists r, s'. split; [exact E | exact Hi].
Defined.

Lemma write_bit_stream_witness :
  exists out evs,
    write_method mosi_level [0x80; 0x01] mode0_state =
      Some (out, {| self := self mode0_state;
                    world := replay evs (world mode0_state) |}) /\
    writes_to MOSI evs = [1; 0; 0; 0; 0; 0; 0; 0; 0; 0; 0; 0; 0; 0; 0; 1].
Proof.
  destruct (write_bit_stream mosi_level [0x80; 0x01] mode0_state)
    as (out & evs & E & Hd & _).
  - split; [left; reflexivity | reflexivity].
  - exists out, evs. split; [exact E | exact Hd].
Defined.

Lemma write_duration_witness :
  exists out evs,
    write_method mosi_level [0x80; 0x01] mode0_state =
      Some (out, {| self := self mode0_state;
                    world := replay evs (world mode0_state) |}) /\
    busy_iterations evs = 2 * (16 * 49 + 9).
Proof.
  destruct (write_duration mosi_level [0x80; 0x01] mode0_state)
    as (out & evs & E & _ & Hb).
  - split; [left; reflexivity | reflexivity].
  - exists out, evs. split; [exact E | exact Hb].
Defined.

Lemma write_keeps_clock_idle_witness :
  exists out s',
    write_method mosi_level [0x80; 0x01] mode3_state = Some (out, s') /\
    clock_idle s'.
Proof.
  destruct (write_keeps_clock_idle mosi_level [0x80; 0x01] mode3_state)
    as (out & s' & E & _ & Hi & _).
  - split; [split; [right; right; right; reflexivity | reflexivity] | reflexivity].
  - exists out, s'. split; [exact E | exact Hi].
Defined.

Lemma write_loopback_witness :
  exists s',
    write_method mosi_level [0xA5; 0x3C; 0x00] mode3_state =
      Some ([0xA5; 0x3C; 0x00], s').
Proof.
  destruct (write_loopback mosi_level [0xA5; 0x3C; 0x00] mode3_state)
    as (s' & E & _).
  - reflexivity.
  - right; right; right; reflexivity.
  - repeat constructor; lia.
  - exists s'. exact E.
Defined.

Lemma write_unhandled_mode_witness :
  exists s', write_method mosi_level [0xA5; 0x3C] mode4_state = Some ([0xFF; 0xFF], s').
Proof.
  destruct (write_unhandled_mode mosi_level [0xA5; 0x3C] mode4_state)
    as (evs & E & _).
  - unfold valid_mode; cbn; lia.
  - eexists. exact E.
Defined.

Lemma write_prefix_witness :
  exists out s',
    write mosi_level [0xA5; 0x3C; 0x7E] 2 mode0_state = Some (out ++ [0x7E], s') /\
    length out = 2%nat.
Proof.
  destruct (write_prefix mosi_level [0xA5; 0x3C; 0x7E] 2 mode0_state)
    as (out & s' & E & _ & Hl).
  - cbn; lia.
  - exists out, s'. split; [exact E | exact Hl].
Defined.

Lemma write_past_end_witness :
  write mosi_level [0xA5; 0x3C] 3 mode0_state = None.
Proof.
  apply (write_past_end mosi_level [0xA5; 0x3C] 3 mode0_state). cbn; lia.
Defined.

Lemma counting_loop_from (fuel : nat) (i sleepCount : Z) :
  0 <= i -> sleepCount < 2 ^ 32 ->
  (Z.to_nat (sleepCount - i) < fuel)%nat ->
  counting_loop fuel i sleepCount = Some (Z.max 0 (sleepCount - i)).
Proof.
  revert i; induction fuel as [|fuel IH]; intros i Hi Hs Hf; [lia|].
  cbn [counting_loop].
  destruct (Z.ltb_spec i sleepCount) as [Hlt | Hge].
  - assert (Hw : to_uint32 (i + 1) = i + 1)
      by (unfold to_uint32; apply Z.mod_small; lia).
    rewrite Hw, IH by lia. f_equal. lia.
  - f_equal. lia.
Qed.

(** X14. The counting loop of the busy-wait ends for every 32-bit count,
    without the counter wrapping around, after [sleepCount - 1] increments,
    and after none for the counts 0 and 1. *)
Theorem usleepByCounting_terminates (fuel : nat) (sleepCount : Z) :
  0 <= sleepCount < 2 ^ 32 ->
  (Z.to_nat sleepCount <= fuel)%nat ->
  counting_loop (S fuel) 1 sleepCount =
  Some (usleepByCounting_iterations sleepCount).
Proof.
  intros Hs Hf. unfold usleepByCounting_iterations.
  apply counting_loop_from; lia.
Qed.

Lemma usleepByCounting_terminates_witness :
  counting_loop 6 1 5 = Some 4.
Proof.
  apply (usleepByCounting_terminates 5 5); [lia | lia].
Defined.

(** X11. Setting the mode and setting the frequency do not interfere: in
    either order they give the same outcome, object, lines and log alike. *)
Theorem setMode_setFrequency_commute (L mode frequency : Z) (s : State) :
  (setMode mode ;; setFrequency L frequency) s =
  (setFrequency L frequency ;; setMode mode) s.
Proof.
  unfold bind. rewrite setMode_eq. cbv zeta.
  unfold setFrequency, bind, modify_self. cbn [self world].
  destruct (double_to_int32 (half_period L frequency)) as [c|]; [|reflexivity].
  rewrite setMode_eq. reflexivity.
Qed.


(** X13. For a calibration constant below 2^32, [setFrequency] has a defined
    outcome for every 32-bit frequency above 0: it touches nothing but the
    stored frequency and the half-period count, which is the quotient
    L / (2 hz) rounded down or, when 2 hz divides L, possibly one less; so
    it is at most L / 2, and it is 0 as soon as 2 hz exceeds L. *)
Theorem setFrequency_every_frequency (L hz : Z) (s : State) :
  0 < L < 2 ^ 32 -> 0 < hz < 2 ^ 32 ->
  exists c,
    setFrequency L hz s =
      Some (tt, {| self := set_m_clockSleepCount c
                             (set_m_frequency hz (self s));
                   world := world s |}) /\
    (L - 1) / (2 * hz) <= c <= L / (2 * hz) /\
    0 <= c <= L / 2 /\
    (L < 2 * hz -> c = 0).
Proof.
  intros HL Hf.
  destruct (setFrequency_run L hz s HL Hf) as [Hc E].
  pose proof (half_period_floor L HL hz Hf) as [Hlo Hup]. cbv zeta in Hlo, Hup.
  eexists. split; [exact E|]. split; [split; assumption|]. split.
  - split; [lia|]. etransitivity; [exact Hup|].
    apply Z.div_le_compat_l; lia.
  - intros Hlt. rewrite (Z.div_small L (2 * hz)) in Hup by lia. lia.
Qed.

Lemma setFrequency_every_frequency_witness :
  exists c s',
    setFrequency example_loops_per_second 1000000 mode0_state = Some (tt, s') /\
    0 <= c <= example_loops_per_second / 2.
Proof.
  destruct (setFrequency_every_frequency example_loops_per_second 1000000
              mode0_state) as (c & E & _ & Hc & _);
    try (unfold example_loops_per_second; lia).
  exists c. eexists. split; [exact E | exact Hc].
Defined.

(** ** Binary64: the quotient of two normal doubles *)

Lemma shr_fexp_one (m e : Z) (l : location) :
  2 ^ 53 <= m < 2 ^ 54 -> emin <= e + 1 ->
  shr_fexp prec emax m e l = (shr_1 (shr_record_of_loc m l), e + 1).
Proof.
  intros Hm He. unfold shr_fexp.
  rewrite (Zdigits2_unique m 54) by (change (54 - 1) with 53; lia).
  rewrite fexp_normal by lia.
  replace (54 + e - 53 - e) with 1 by lia. reflexivity.
Qed.

Lemma new_location_exact (D r : Z) :
  new_location D r = loc_Exact <-> r = 0.
Proof.
  unfold new_location, new_location_even, new_location_odd.
  destruct (Z.even D); cbv beta; destruct (Z.eqb_spec r 0) as [E|E];
    split; intros H; try assumption; try reflexivity; try discriminate H;
    contradiction.
Qed.

(** Rounding after one more shift, with the location of the remainder, is
    rounding the quotient by twice the divisor. *)
Lemma round_shift_one (N D : Z) :
  0 <= N -> 0 < D ->
  let mrs := shr_1 (shr_record_of_loc (N / D) (new_location D (N mod D))) in
  round_nearest_even (shr_m mrs) (loc_of_shr_record mrs) = rne_div N (2 * D).
Proof.
  intros HN HD. cbv zeta.
  pose proof (Z.mod_pos_bound N D HD) as Hr.
  pose proof (Z.div_mod N D ltac:(lia)) as EN.
  assert (Hq : 0 <= N / D) by (apply Z.div_pos; lia).
  pose proof (new_location_exact D (N mod D)) as Hex.
  assert (Hrec : shr_1 (shr_record_of_loc (N / D) (new_location D (N mod D))) =
                 {| shr_m := N / D / 2; shr_r := Z.odd (N / D);
                    shr_s := negb (N mod D =? 0) |}).
  { destruct (new_location D (N mod D)) as [|[]] eqn:El; cbn [shr_record_of_loc];
      rewrite shr_1_spec by exact Hq; f_equal; cbn [orb];
      destruct (Z.eqb_spec (N mod D) 0) as [E0|E0]; try reflexivity;
      try (apply Hex in E0; discriminate E0).
    exfalso. apply E0. apply Hex. reflexivity. }
  rewrite Hrec. cbn [shr_m]. unfold rne_div.
  rewrite (Z.mul_comm 2 D), <- Z.div_div by lia.
  rewrite Z.rem_mul_r by lia.
  rewrite Zmod_odd.
  unfold loc_of_shr_record.
  destruct (Z.odd (N / D)); destruct (Z.eqb_spec (N mod D) 0) as [E0|E0];
    cbn [negb round_nearest_even].
  - destruct (Z.compare_spec (2 * (N mod D + D * 1)) (D * 2)); first [lia | reflexivity].
  - destruct (Z.compare_spec (2 * (N mod D + D * 1)) (D * 2)); first [lia | reflexivity].
  - destruct (Z.compare_spec (2 * (N mod D + D * 0)) (D * 2)); first [lia | reflexivity].
  - destruct (Z.compare_spec (2 * (N mod D + D * 0)) (D * 2)); first [lia | reflexivity].
Qed.

(** The quotient of two positive normal doubles: the mantissa is the
    quotient of the mantissas rounded at 53 bits, [k] telling whether it
    came out with 53 or 54 bits. *)
Lemma ddiv_eval (mx : positive) (ex : Z) (my : positive) (ey : Z) :
  2 ^ 52 <= Z.pos mx < 2 ^ 53 -> 2 ^ 52 <= Z.pos my < 2 ^ 53 ->
  - 200 <= ex <= 200 -> - 200 <= ey <= 200 ->
  exists k,
    (k = 1 \/ k = 2) /\
    2 ^ 52 * (k * Z.pos my) <= Z.pos mx * 2 ^ 53 <= 2 ^ 53 * (k * Z.pos my) /\
    ddiv (S754_finite false mx ex) (S754_finite false my ey) =
    finite_of false (rne_div (Z.pos mx * 2 ^ 53) (k * Z.pos my))
      (ex - ey - 53 + (k - 1)).
Proof.
  intros Hx Hy Ex Ey. unfold ddiv, SFdiv.
  rewrite div_core_normal by (unfold emin; lia). cbn [xorb].
  set (N := Z.pos mx * 2 ^ 53).
  assert (HN : 2 ^ 52 * Z.pos my <= N < 2 ^ 54 * Z.pos my).
  { unfold N. change (2 ^ 54) with (2 * 2 ^ 53) . change (2 ^ 53) with (2 * 2 ^ 52) in *.
    set (t := 2 ^ 52) in *. assert (0 < t) by reflexivity. nia. }
  assert (Hq : 2 ^ 52 <= N / Z.pos my < 2 ^ 54).
  { split; [apply Z.div_le_lower_bound | apply Z.div_lt_upper_bound]; lia. }
  pose proof (Z.div_mod N (Z.pos my) ltac:(lia)) as EN.
  pose proof (Z.mod_pos_bound N (Z.pos my) ltac:(lia)) as Hr.
  destruct (Z_lt_le_dec (N / Z.pos my) (2 ^ 53)) as [Hlt | Hge].
  - exists 1. split; [auto|]. rewrite Z.mul_1_l. split; [nia|].
    rewrite binary_round_aux_normal by (unfold emin, emax, prec; lia).
    rewrite round_new_location by lia.
    f_equal. lia.
  - exists 2. split; [auto|].
    assert (HN2 : 2 ^ 52 * (2 * Z.pos my) <= N <= 2 ^ 53 * (2 * Z.pos my)).
    { change (2 ^ 54) with (2 ^ 53 * 2) in HN. change (2 ^ 53) with (2 ^ 52 * 2) in Hge.
      change (2 ^ 53) with (2 ^ 52 * 2). set (t := 2 ^ 52) in *. nia. }
    split; [exact HN2|].
    unfold binary_round_aux.
    rewrite shr_fexp_one by (unfold emin; lia).
    pose proof (round_shift_one N (Z.pos my) ltac:(lia) ltac:(lia)) as Hround.
    cbv zeta in Hround. rewrite Hround.
    replace (ex - ey - 53 + (2 - 1)) with (ex - ey - 53 + 1) by lia.
    apply round_finish; unfold emin, emax, prec; try lia.
    apply rne_div_range; lia.
Qed.

Lemma ddiv_normal (lo hi lo' hi' : Z) (x y : spec_float) :
  pos_normal lo hi x -> pos_normal lo' hi' y ->
  - 200 <= lo -> hi <= 200 -> - 200 <= lo' -> hi' <= 200 ->
  pos_normal (lo - hi' - 53) (hi - lo' - 51) (ddiv x y).
Proof.
  intros (mx & ex & -> & Hx & Ex) (my & ey & -> & Hy & Ey) B1 B2 B3 B4.
  destruct (ddiv_eval mx ex my ey Hx Hy ltac:(lia) ltac:(lia))
    as (k & Hk & HN & ->).
  eapply pos_normal_weaken; [apply finite_of_normal | lia | lia].
  apply rne_div_range; lia.
Qed.

Lemma ddiv_scaled (mx : positive) (ex : Z) (my : positive) (ey : Z) :
  2 ^ 52 <= Z.pos mx < 2 ^ 53 -> 2 ^ 52 <= Z.pos my < 2 ^ 53 ->
  - 200 <= ex <= 200 -> - 200 <= ey <= 200 ->
  exists k,
    (k = 1 \/ k = 2) /\
    2 ^ 52 * (k * Z.pos my) <= Z.pos mx * 2 ^ 53 <= 2 ^ 53 * (k * Z.pos my) /\
    scaled (ddiv (S754_finite false mx ex) (S754_finite false my ey)) =
    rne_div (Z.pos mx * 2 ^ 53) (k * Z.pos my) *
    2 ^ (ex - ey - 53 + (k - 1) + 1074).
Proof.
  intros Hx Hy Ex Ey.
  destruct (ddiv_eval mx ex my ey Hx Hy Ex Ey) as (k & Hk & HN & ->).
  exists k. split; [exact Hk|]. split; [exact HN|].
  apply scaled_finite_of; [|lia].
  apply rne_div_range; lia.
Qed.

(** Division by a fixed double is monotone. *)
Lemma ddiv_mono (x1 x2 y : spec_float) :
  pos_normal (- 200) 200 x1 -> pos_normal (- 200) 200 x2 ->
  pos_normal (- 200) 200 y ->
  scaled x1 <= scaled x2 ->
  scaled (ddiv x1 y) <= scaled (ddiv x2 y).
Proof.
  intros (m1 & e1 & -> & H1 & E1) (m2 & e2 & -> & H2 & E2)
         (my & ey & -> & Hy & Ey) Hle.
  cbn [scaled cond_Zopp] in Hle.
  destruct (ddiv_scaled m1 e1 my ey H1 Hy E1 Ey) as (k1 & Hk1 & HN1 & ->).
  destruct (ddiv_scaled m2 e2 my ey H2 Hy E2 Ey) as (k2 & Hk2 & HN2 & ->).
  apply rne_scaled_mono; try lia.
  assert (G1 : 2 ^ (e1 - ey - 53 + (k1 - 1) + 1074) * 2 ^ 253 =
               2 ^ (e1 + 1074) * (2 ^ (- ey + 200) * 2 ^ (k1 - 1))).
  { rewrite <- !Z.pow_add_r by lia. f_equal. lia. }
  assert (G2 : 2 ^ (e2 - ey - 53 + (k2 - 1) + 1074) * 2 ^ 253 =
               2 ^ (e2 + 1074) * (2 ^ (- ey + 200) * 2 ^ (k2 - 1))).
  { rewrite <- !Z.pow_add_r by lia. f_equal. lia. }
  assert (A1 : 0 < 2 ^ (e1 + 1074)) by (apply Z.pow_pos_nonneg; lia).
  assert (A2 : 0 < 2 ^ (e2 + 1074)) by (apply Z.pow_pos_nonneg; lia).
  assert (Y : 0 < 2 ^ (- ey + 200)) by (apply Z.pow_pos_nonneg; lia).
  assert (P1 : 0 < 2 ^ (e1 - ey - 53 + (k1 - 1) + 1074)) by (apply Z.pow_pos_nonneg; lia).
  assert (P2 : 0 < 2 ^ (e2 - ey - 53 + (k2 - 1) + 1074)) by (apply Z.pow_pos_nonneg; lia).
  assert (K1 : k1 = 2 ^ (k1 - 1)) by (destruct Hk1 as [-> | ->]; reflexivity).
  assert (K2 : k2 = 2 ^ (k2 - 1)) by (destruct Hk2 as [-> | ->]; reflexivity).
  set (p1 := 2 ^ (e1 - ey - 53 + (k1 - 1) + 1074)) in *.
  set (p2 := 2 ^ (e2 - ey - 53 + (k2 - 1) + 1074)) in *.
  set (a1 := 2 ^ (e1 + 1074)) in *. set (a2 := 2 ^ (e2 + 1074)) in *.
  set (yy := 2 ^ (- ey + 200)) in *.
  rewrite <- K1 in G1. rewrite <- K2 in G2.
  assert (T : 0 < 2 ^ 253) by reflexivity. set (t := 2 ^ 253) in *.
  assert (S53 : 0 < 2 ^ 53) by reflexivity. set (u := 2 ^ 53) in *.
  apply Z.mul_le_mono_pos_r with (p := t); [exact T|].
  replace (Z.pos m1 * u * p1 * (k2 * Z.pos my) * t)
    with (Z.pos m1 * u * (p1 * t) * (k2 * Z.pos my)) by ring.
  replace (Z.pos m2 * u * p2 * (k1 * Z.pos my) * t)
    with (Z.pos m2 * u * (p2 * t) * (k1 * Z.pos my)) by ring.
  rewrite G1, G2.
  replace (Z.pos m1 * u * (a1 * (yy * k1)) * (k2 * Z.pos my))
    with ((u * yy * k1 * k2 * Z.pos my) * (Z.pos m1 * a1)) by ring.
  replace (Z.pos m2 * u * (a2 * (yy * k2)) * (k1 * Z.pos my))
    with ((u * yy * k1 * k2 * Z.pos my) * (Z.pos m2 * a2)) by ring.
  apply Z.mul_le_mono_nonneg_l; [|exact Hle].
  repeat apply Z.mul_nonneg_nonneg; lia.
Qed.

(** The quotient is within one part in 2^53 of the exact quotient. *)
Lemma ddiv_error (x y : spec_float) :
  pos_normal (- 200) 200 x -> pos_normal (- 200) 200 y ->
  (2 ^ 53 - 1) * (scaled x * 2 ^ 1074) <= 2 ^ 53 * (scaled (ddiv x y) * scaled y) /\
  2 ^ 53 * (scaled (ddiv x y) * scaled y) <= (2 ^ 53 + 1) * (scaled x * 2 ^ 1074).
Proof.
  intros (mx & ex & -> & Hx & Ex) (my & ey & -> & Hy & Ey).
  destruct (ddiv_scaled mx ex my ey Hx Hy Ex Ey) as (k & Hk & HN & ->).
  cbn [scaled cond_Zopp].
  pose proof (rne_div_near (Z.pos mx * 2 ^ 53) (k * Z.pos my) ltac:(lia)) as [Nlo Nhi].
  set (q := rne_div (Z.pos mx * 2 ^ 53) (k * Z.pos my)) in *.
  assert (K1 : k = 2 ^ (k - 1)) by (destruct Hk as [-> | ->]; reflexivity).
  assert (G : 2 ^ (ex - ey - 53 + (k - 1) + 1074) * 2 ^ (ey + 1074) * 2 ^ 53 =
              k * (2 ^ (ex + 1074) * 2 ^ 1074)).
  { rewrite K1 at 2. rewrite <- !Z.pow_add_r by lia. f_equal. lia. }
  assert (A : 0 < 2 ^ (ex + 1074) * 2 ^ 1074).
  { apply Z.mul_pos_pos; apply Z.pow_pos_nonneg; lia. }
  set (g := 2 ^ (ex + 1074) * 2 ^ 1074) in *.
  set (p := 2 ^ (ex - ey - 53 + (k - 1) + 1074)) in *.
  set (b := 2 ^ (ey + 1074)) in *.
  replace (Z.pos mx * 2 ^ (ex + 1074) * 2 ^ 1074) with (Z.pos mx * g)
    by (unfold g; ring).
  set (D := k * Z.pos my) in *. set (N := Z.pos mx * 2 ^ 53) in *.
  assert (E1 : 2 ^ 53 * (q * p * (Z.pos my * b)) * 2 ^ 53 = 2 ^ 53 * (q * D) * g).
  { replace (2 ^ 53 * (q * p * (Z.pos my * b)) * 2 ^ 53)
      with (2 ^ 53 * q * Z.pos my * (p * b * 2 ^ 53)) by ring.
    rewrite G. unfold D. ring. }
  assert (E2 : Z.pos mx * g * 2 ^ 53 = N * g) by (unfold N; ring).
  change (2 ^ 52) with 4503599627370496 in *.
  change (2 ^ 53) with 9007199254740992 in *.
  assert (U : 9007199254740992 * (q * D) <= (9007199254740992 + 1) * N) by nia.
  assert (V : (9007199254740992 - 1) * N <= 9007199254740992 * (q * D)) by nia.
  split; nia.
Qed.

Lemma thousand_normal : pos_normal (- 52) (- 43) (double_of_Z 1000).
Proof. apply (double_of_Z_normal 1000 10); lia. Qed.

Lemma thousand_scaled : scaled (double_of_Z 1000) = 1000 * 2 ^ 1074.
Proof. apply scaled_double_of_Z. lia. Qed.

Lemma pos_normal_scaled_pos (lo hi : Z) (x : spec_float) :
  pos_normal lo hi x -> - 1074 <= lo -> 0 < scaled x.
Proof.
  intros (m & e & -> & Hm & He) Hlo. cbn [scaled cond_Zopp].
  assert (0 < 2 ^ (e + 1074)) by (apply Z.pow_pos_nonneg; lia). lia.
Qed.

Section DelayFacts.

Variable L : Z.
Hypothesis HL : 0 < L < 2 ^ 32.

Lemma micro_normal (t : Z) :
  0 < t < 2 ^ 32 ->
  pos_normal (- 72) (- 19)
    (ddiv (ddiv (double_of_Z t) (double_of_Z 1000)) (double_of_Z 1000)).
Proof.
  intros Ht.
  pose proof (double_of_Z_normal t 32 Ht ltac:(lia)) as N0.
  pose proof thousand_normal as N1.
  pose proof (ddiv_normal _ _ _ _ _ _ N0 N1 ltac:(lia) ltac:(lia) ltac:(lia)
                ltac:(lia)) as N2.
  pose proof (ddiv_normal _ _ _ _ _ _ N2 N1 ltac:(lia) ltac:(lia) ltac:(lia)
                ltac:(lia)) as N3.
  eapply pos_normal_weaken; [exact N3 | lia | lia].
Qed.

Lemma between_byte_delay_normal (t : Z) :
  0 < t < 2 ^ 32 -> pos_normal (- 72) 14 (between_byte_delay L t).
Proof.
  intros Ht. unfold between_byte_delay.
  pose proof (micro_normal t Ht) as N3.
  pose proof (L_double_normal L HL) as NL.
  pose proof (dmul_normal _ _ _ _ _ _ N3 NL ltac:(lia) ltac:(lia) ltac:(lia)
                ltac:(lia)) as N4.
  eapply pos_normal_weaken; [exact N4 | lia | lia].
Qed.

Lemma between_byte_delay_mono (t1 t2 : Z) :
  0 < t1 <= t2 -> t2 < 2 ^ 32 ->
  scaled (between_byte_delay L t1) <= scaled (between_byte_delay L t2).
Proof.
  intros H1 H2. unfold between_byte_delay.
  assert (B : 2 ^ 32 < 2 ^ 53) by reflexivity.
  pose proof (double_of_Z_normal t1 32 ltac:(lia) ltac:(lia)) as N1.
  pose proof (double_of_Z_normal t2 32 ltac:(lia) ltac:(lia)) as N2.
  pose proof thousand_normal as NK.
  pose proof (ddiv_normal _ _ _ _ _ _ N1 NK ltac:(lia) ltac:(lia) ltac:(lia)
                ltac:(lia)) as M1.
  pose proof (ddiv_normal _ _ _ _ _ _ N2 NK ltac:(lia) ltac:(lia) ltac:(lia)
                ltac:(lia)) as M2.
  apply dmul_mono.
  - eapply pos_normal_weaken; [apply micro_normal | |]; lia.
  - eapply pos_normal_weaken; [apply micro_normal | |]; lia.
  - eapply pos_normal_weaken; [apply (L_double_normal L HL) | |]; lia.
  - apply ddiv_mono.
    + eapply pos_normal_weaken; [exact M1 | |]; lia.
    + eapply pos_normal_weaken; [exact M2 | |]; lia.
    + eapply pos_normal_weaken; [exact NK | |]; lia.
    + apply ddiv_mono.
      * eapply pos_normal_weaken; [exact N1 | |]; lia.
      * eapply pos_normal_weaken; [exact N2 | |]; lia.
      * eapply pos_normal_weaken; [exact NK | |]; lia.
      * rewrite !scaled_double_of_Z by lia.
        apply Z.mul_le_mono_nonneg_r; [|lia]. apply Z.pow_nonneg; lia.
Qed.

(** The double product, times 10^6, misses t * L by less than one. *)
Lemma between_byte_delay_error (t : Z) :
  0 < t < 2 ^ 32 -> t * L < 2 ^ 51 ->
  (t * L - 1) * 2 ^ 1074 < 1000000 * scaled (between_byte_delay L t)
                         < (t * L + 1) * 2 ^ 1074.
Proof.
  intros Ht Hx. unfold between_byte_delay.
  assert (B : 2 ^ 32 < 2 ^ 53) by reflexivity.
  pose proof (double_of_Z_normal t 32 Ht ltac:(lia)) as N0.
  pose proof thousand_normal as NK.
  pose proof (ddiv_normal _ _ _ _ _ _ N0 NK ltac:(lia) ltac:(lia) ltac:(lia)
                ltac:(lia)) as N1.
  pose proof (micro_normal t Ht) as N2.
  pose proof (L_double_normal L HL) as NL.
  assert (W0 : pos_normal (- 200) 200 (double_of_Z t))
    by (eapply pos_normal_weaken; [exact N0 | |]; lia).
  assert (WK : pos_normal (- 200) 200 (double_of_Z 1000))
    by (eapply pos_normal_weaken; [exact NK | |]; lia).
  assert (W1 : pos_normal (- 200) 200 (ddiv (double_of_Z t) (double_of_Z 1000)))
    by (eapply pos_normal_weaken; [exact N1 | |]; lia).
  assert (W2 : pos_normal (- 200) 200
                 (ddiv (ddiv (double_of_Z t) (double_of_Z 1000)) (double_of_Z 1000)))
    by (eapply pos_normal_weaken; [exact N2 | |]; lia).
  assert (WL : pos_normal (- 200) 200 (double_of_Z L))
    by (eapply pos_normal_weaken; [exact NL | |]; lia).
  destruct (ddiv_error _ _ W0 WK) as [A1 B1].
  destruct (ddiv_error _ _ W1 WK) as [A2 B2].
  destruct (dmul_error _ _ W2 WL) as [A3 B3].
  rewrite thousand_scaled in A1, B1, A2, B2.
  rewrite scaled_double_of_Z in A1, B1, A3, B3 by lia.
  pose proof (pos_normal_scaled_pos _ _ _ W1 ltac:(lia)) as P1.
  pose proof (pos_normal_scaled_pos _ _ _ W2 ltac:(lia)) as P2.
  set (s1 := scaled (ddiv (double_of_Z t) (double_of_Z 1000))) in *.
  set (s2 := scaled (ddiv (ddiv (double_of_Z t) (double_of_Z 1000))
                       (double_of_Z 1000))) in *.
  set (s3 := scaled (dmul (ddiv (ddiv (double_of_Z t) (double_of_Z 1000))
                             (double_of_Z 1000)) (double_of_Z L))) in *.
  assert (T : 0 < 2 ^ 1074) by reflexivity. set (T' := 2 ^ 1074) in *.
  change (2 ^ 53) with 9007199254740992 in *.
  change (2 ^ 51) with 2251799813685248 in *.
  change (2 ^ 32) with 4294967296 in *.
  set (a := 9007199254740992) in *.
  assert (Ha : a = 9007199254740992) by reflexivity.
  (* upper chain *)
  assert (U1 : a * (1000 * s1) <= (a + 1) * (t * T')) by nia.
  assert (U2 : a * (1000 * s2) <= (a + 1) * s1) by nia.
  assert (U3 : a * s3 <= (a + 1) * (s2 * L)) by nia.
  assert (V1 : (a - 1) * (t * T') <= a * (1000 * s1)) by nia.
  assert (V2 : (a - 1) * s1 <= a * (1000 * s2)) by nia.
  assert (V3 : (a - 1) * (s2 * L) <= a * s3) by nia.
  assert (S3 : 0 <= s3) by nia.
  assert (UU : a * a * a * (1000000 * s3) <=
               (a + 1) * (a + 1) * (a + 1) * (t * L * T')).
  { assert (X1 : a * a * a * (1000000 * s3) <=
                 a * a * 1000000 * ((a + 1) * (s2 * L))) by nia.
    assert (X2 : a * (a + 1) * 1000 * L * (a * (1000 * s2)) <=
                 a * (a + 1) * 1000 * L * ((a + 1) * s1)) by nia.
    assert (X3 : (a + 1) * (a + 1) * L * (a * (1000 * s1)) <=
                 (a + 1) * (a + 1) * L * ((a + 1) * (t * T'))) by nia.
    nia. }
  assert (VV : (a - 1) * (a - 1) * (a - 1) * (t * L * T') <=
               a * a * a * (1000000 * s3)).
  { assert (X1 : a * a * 1000000 * ((a - 1) * (s2 * L)) <=
                 a * a * a * (1000000 * s3)) by nia.
    assert (X2 : a * (a - 1) * 1000 * L * ((a - 1) * s1) <=
                 a * (a - 1) * 1000 * L * (a * (1000 * s2))) by nia.
    assert (X3 : (a - 1) * (a - 1) * L * ((a - 1) * (t * T')) <=
                 (a - 1) * (a - 1) * L * (a * (1000 * s1))) by nia.
    nia. }
  assert (Hx0 : 0 < t * L) by nia.
  set (x := t * L) in *.
  assert (LU : (a + 1) * (a + 1) * (a + 1) * x < a * a * a * (x + 1))
    by (rewrite Ha; lia).
  assert (LV : a * a * a * (x - 1) < (a - 1) * (a - 1) * (a - 1) * x)
    by (rewrite Ha; lia).
  assert (A3pos : 0 < a * a * a) by (rewrite Ha; lia).
  set (a3 := a * a * a) in *.
  set (ap := (a + 1) * (a + 1) * (a + 1)) in *.
  set (am := (a - 1) * (a - 1) * (a - 1)) in *.
  split.
  - assert (a3 * ((x - 1) * T') < a3 * (1000000 * s3)); [|nia].
    assert (a3 * (x - 1) * T' < am * x * T') by nia.
    nia.
  - assert (a3 * (1000000 * s3) < a3 * ((x + 1) * T')); [|nia].
    assert (ap * x * T' < a3 * (x + 1) * T') by nia.
    nia.
Qed.

End DelayFacts.

Lemma setBetweenByteDelay_us_run (L count_min count_max t : Z) (s : State) :
  0 < L < 2 ^ 32 -> 0 <= t < 2 ^ 32 -> t * L < 1000000 * 2 ^ 31 ->
  count_min <= 0 -> 2 ^ 31 <= count_max ->
  let c := scaled (between_byte_delay L t) / 2 ^ 1074 in
  setBetweenByteDelay_us L count_min count_max t s =
    Some (tt, {| self := set_m_betweenByteSleepCount c (self s);
                 world := world s |}) /\
  (t * L - 1) / 1000000 <= c <= t * L / 1000000 /\
  0 <= c.
Proof.
  intros HL Ht Hx Hmin Hmax c.
  assert (T : 0 < 2 ^ 1074) by reflexivity.
  assert (Hc : trunc_double (between_byte_delay L t) = Some c /\
               (t * L - 1) / 1000000 <= c <= t * L / 1000000).
  { destruct (Z.eq_dec t 0) as [-> | Hne].
    - unfold c, between_byte_delay.
      change (ddiv (ddiv (double_of_Z 0) (double_of_Z 1000)) (double_of_Z 1000))
        with (S754_zero false).
      destruct (L_double_normal L HL) as (m & e & -> & _ & _).
      split; reflexivity || (cbn; split; discriminate).
    - assert (Ht' : 0 < t < 2 ^ 32) by lia.
      pose proof (between_byte_delay_normal L HL t Ht') as N.
      split; [apply (trunc_pos_normal (- 72) 14); [exact N | lia]|].
      assert (Hx' : t * L < 2 ^ 51).
      { change (2 ^ 51) with (1048576 * 2 ^ 31). change (2 ^ 31) with 2147483648 in *. lia. }
      pose proof (between_byte_delay_error L HL t Ht' Hx') as [Plo Phi].
      pose proof (Z.div_mod (scaled (between_byte_delay L t)) (2 ^ 1074) ltac:(lia)) as Ec.
      pose proof (Z.mod_pos_bound (scaled (between_byte_delay L t)) (2 ^ 1074) T) as Er.
      fold c in Ec.
      set (sh := scaled (between_byte_delay L t)) in *.
      set (r := sh mod 2 ^ 1074) in *. set (tt' := 2 ^ 1074) in *.
      split.
      + assert (H : (t * L - 1) / 1000000 < c + 1); [|lia].
        apply Z.div_lt_upper_bound; [lia|].
        assert (H1 : (t * L - 1) * tt' < 1000000 * (c + 1) * tt') by nia.
        nia.
      + apply Z.div_le_lower_bound; [lia|].
        assert (H1 : 1000000 * c * tt' < (t * L + 1) * tt') by nia.
        nia. }
  destruct Hc as [Et Hb].
  assert (Hlo : - 1 <= (t * L - 1) / 1000000).
  { apply Z.div_le_lower_bound; nia. }
  assert (Hhi : t * L / 1000000 < 2 ^ 31).
  { apply Z.div_lt_upper_bound; lia. }
  assert (Hc0 : 0 <= c).
  { unfold c. apply Z.div_pos; [|exact T].
    destruct (Z.eq_dec t 0) as [-> | Hne].
    - unfold between_byte_delay.
      change (ddiv (ddiv (double_of_Z 0) (double_of_Z 1000)) (double_of_Z 1000))
        with (S754_zero false).
      destruct (L_double_normal L HL) as (m & e & -> & _ & _). cbn. lia.
    - pose proof (between_byte_delay_normal L HL t ltac:(lia)) as N.
      pose proof (pos_normal_scaled_pos _ _ _ N ltac:(lia)). lia. }
  split; [|split; [exact Hb | exact Hc0]].
  unfold setBetweenByteDelay_us, double_to_integer. rewrite Et.
  replace ((count_min <=? c) && (c <? count_max)) with true; [reflexivity|].
  symmetry. apply andb_true_iff. split; [apply Z.leb_le | apply Z.ltb_lt]; lia.
Qed.

(** X15. For a calibration constant L below 2^32, a 32-bit delay of t
    microseconds with t * L below 10^6 * 2^31, and a count member that holds
    at least 0 .. 2^31 - 1, [setBetweenByteDelay_us] has a defined outcome and
    touches nothing but the inter-byte count, which is t * L / 10^6 rounded
    down or, when 10^6 divides t * L, possibly one less; nothing raises it:
    it is 0 for the delay 0 and whenever t * L is below 10^6. *)
Theorem setBetweenByteDelay_us_floor (L count_min count_max t : Z) (s : State) :
  0 < L < 2 ^ 32 -> 0 <= t < 2 ^ 32 -> t * L < 1000000 * 2 ^ 31 ->
  count_min <= 0 -> 2 ^ 31 <= count_max ->
  exists c,
    setBetweenByteDelay_us L count_min count_max t s =
      Some (tt, {| self := set_m_betweenByteSleepCount c (self s);
                   world := world s |}) /\
    (t * L - 1) / 1000000 <= c <= t * L / 1000000 /\
    ((t * L) mod 1000000 <> 0 -> c = t * L / 1000000) /\
    0 <= c /\
    (t * L < 1000000 -> c = 0).
Proof.
  intros HL Ht Hx Hmin Hmax.
  destruct (setBetweenByteDelay_us_run L count_min count_max t s HL Ht Hx Hmin Hmax)
    as (E & Hb & Hc0).
  eexists. split; [exact E|]. split; [exact Hb|].
  set (c := scaled (between_byte_delay L t) / 2 ^ 1074) in *.
  assert (Hmod : (t * L) mod 1000000 <> 0 -> (t * L - 1) / 1000000 = t * L / 1000000).
  { intros Hm.
    pose proof (Z.div_mod (t * L) 1000000 ltac:(lia)) as Ed.
    pose proof (Z.mod_pos_bound (t * L) 1000000 ltac:(lia)) as Er.
    symmetry. apply Z.div_unique with (r := (t * L) mod 1000000 - 1); lia. }
  split; [intros Hm; rewrite Hmod in Hb by exact Hm; lia|].
  split; [exact Hc0|].
  intros Hsmall. rewrite (Z.div_small (t * L) 1000000) in Hb by nia. lia.
Qed.

Lemma setBetweenByteDelay_us_floor_witness :
  exists c s',
    setBetweenByteDelay_us example_loops_per_second 0 (2 ^ 32) 10 mode0_state =
      Some (tt, s') /\
    c <= 1000.
Proof.
  destruct (setBetweenByteDelay_us_floor example_loops_per_second 0 (2 ^ 32) 10
              mode0_state) as (c & E & [_ Hc] & _);
    try (unfold example_loops_per_second; lia).
  exists c. eexists. split; [exact E | exact Hc].
Defined.

(** X16. Under the same bounds the inter-byte count never decreases when the
    delay grows. *)
Theorem setBetweenByteDelay_us_monotone (L count_min count_max t1 t2 : Z)
    (s1 s2 : State) :
  0 < L < 2 ^ 32 -> 0 <= t1 <= t2 -> t2 < 2 ^ 32 ->
  t2 * L < 1000000 * 2 ^ 31 ->
  count_min <= 0 -> 2 ^ 31 <= count_max ->
  exists s1' s2',
    setBetweenByteDelay_us L count_min count_max t1 s1 = Some (tt, s1') /\
    setBetweenByteDelay_us L count_min count_max t2 s2 = Some (tt, s2') /\
    m_betweenByteSleepCount (self s1') <= m_betweenByteSleepCount (self s2').
Proof.
  intros HL H1 H2 Hx Hmin Hmax.
  assert (Hx1 : t1 * L < 1000000 * 2 ^ 31) by nia.
  destruct (setBetweenByteDelay_us_run L count_min count_max t1 s1 HL
              ltac:(lia) Hx1 Hmin Hmax) as (E1 & B1 & P1).
  destruct (setBetweenByteDelay_us_run L count_min count_max t2 s2 HL
              ltac:(lia) Hx Hmin Hmax) as (E2 & B2 & P2).
  eexists _, _. split; [exact E1|]. split; [exact E2|].
  cbn [self m_betweenByteSleepCount set_m_betweenByteSleepCount].
  destruct (Z.eq_dec t1 0) as [-> | Hne].
  - rewrite (Z.div_small (0 * L) 1000000) in B1 by lia. lia.
  - apply Z.div_le_mono; [reflexivity|].
    apply between_byte_delay_mono; [exact HL | lia | lia].
Qed.

Lemma setBetweenByteDelay_us_monotone_witness :
  exists s1' s2',
    setBetweenByteDelay_us example_loops_per_second 0 (2 ^ 32) 10 mode0_state =
      Some (tt, s1') /\
    setBetweenByteDelay_us example_loops_per_second 0 (2 ^ 32) 20 mode0_state =
      Some (tt, s2') /\
    m_betweenByteSleepCount (self s1') <= m_betweenByteSleepCount (self s2').
Proof.
  apply (setBetweenByteDelay_us_monotone example_loops_per_second 0 (2 ^ 32) 10 20);
    unfold example_loops_per_second; lia.
Defined.

(** X17. The constructor assigns every member: with a valid default mode, a
    default frequency above 0 and a default delay within the bounds above,
    the object it leaves is the same whatever the members held before; the
    mode, polarity and frequency are the defaults, the clock has been driven
    once, to the idle level of the default mode, and it is idle. *)
Theorem SoftSpi_new_initialises
    (L count_min count_max mode frequency delay : Z) :
  0 < L < 2 ^ 32 -> count_min <= 0 -> 2 ^ 31 <= count_max ->
  valid_mode mode -> 0 < frequency < 2 ^ 32 ->
  0 <= delay < 2 ^ 32 -> delay * L < 1000000 * 2 ^ 31 ->
  exists o,
    (forall s,
       SoftSpi_new L count_min count_max mode frequency delay s =
       Some (tt, {| self := o;
                    world := replay [GpioWrite SCK (derivedCPOL mode)]
                               (world s) |})) /\
    m_mode o = mode /\
    m_cpol o = derivedCPOL mode /\
    m_frequency o = frequency /\
    (L - 1) / (2 * frequency) <= m_clockSleepCount o <= L / (2 * frequency) /\
    (delay * L - 1) / 1000000 <= m_betweenByteSleepCount o
                              <= delay * L / 1000000 /\
    (forall s, exists s',
       SoftSpi_new L count_min count_max mode frequency delay s = Some (tt, s') /\
       clock_idle s').
Proof.
  intros HL Hmin Hmax Hm Hf Hd Hx.
  set (c1 := scaled (half_period L frequency) / 2 ^ 1074).
  set (c2 := scaled (between_byte_delay L delay) / 2 ^ 1074).
  set (o := {| m_mode := mode; m_cpol := derivedCPOL mode;
               m_frequency := frequency; m_clockSleepCount := c1;
               m_betweenByteSleepCount := c2 |}).
  assert (Hcp : (if (mode =? 2) || (mode =? 3) then 1 else 0) = derivedCPOL mode)
    by (destruct Hm as [-> | [-> | [-> | ->]]]; reflexivity).
  assert (E : forall s,
             SoftSpi_new L count_min count_max mode frequency delay s =
             Some (tt, {| self := o;
                          world := replay [GpioWrite SCK (derivedCPOL mode)]
                                     (world s) |})).
  { intros s. unfold SoftSpi_new, bind.
    rewrite setMode_eq. cbv zeta. rewrite Hcp.
    match goal with
    | |- context [setFrequency L frequency ?s1] =>
      destruct (setFrequency_run L frequency s1 HL Hf) as [_ ->]
    end.
    match goal with
    | |- context [setBetweenByteDelay_us L count_min count_max delay ?s2] =>
      destruct (setBetweenByteDelay_us_run L count_min count_max delay s2
                  HL Hd Hx Hmin Hmax) as (-> & _ & _)
    end.
    reflexivity. }
  exists o. split; [exact E|].
  pose proof (half_period_floor L HL frequency Hf) as Hfl. cbv zeta in Hfl.
  destruct (setBetweenByteDelay_us_run L count_min count_max delay mode0_state
              HL Hd Hx Hmin Hmax) as (_ & Hb & _).
  repeat (split; [first [reflexivity | exact Hfl | exact Hb]|]).
  intros s. eexists. split; [apply E|].
  split; [split; [exact Hm | reflexivity]|].
  cbn [self world m_cpol o]. rewrite sck_level_replay. reflexivity.
Qed.

Lemma SoftSpi_new_initialises_witness :
  exists s',
    SoftSpi_new example_loops_per_second 0 (2 ^ 32) 0 1000000 10 mode4_state =
      Some (tt, s') /\
    m_mode (self s') = 0.
Proof.
  destruct (SoftSpi_new_initialises example_loops_per_second 0 (2 ^ 32) 0
              1000000 10) as (o & E & Hmode & _);
    try (unfold example_loops_per_second; lia);
    try (unfold valid_mode; auto).
  eexists. split; [apply E | exact Hmode].
Defined.
